(** * Lysithea: the Express pattern catalog and the pattern engine

    The repository ships a catalog of vetted Express/PostgreSQL code
    patterns (route handlers, an authentication middleware, query
    functions, a schema template).  This development embeds the
    JavaScript of those patterns as Rocq functions and states the
    properties the patterns are vetted for: pagination bounds,
    duplicate checks before mutations, positional SQL parameters and the
    behaviour of the token middleware.

    The engine that consumes the catalog (ranking, validation, the
    orchestrator) is modelled separately, in [Module Engine].

    Conventions of the embedding.
    - JavaScript numbers are modelled by [JNum] over exact integers plus
      [JNaN]; the handlers only ever compute with integers obtained from
      [parseInt].  The model is exact on the safe integers
      ([is_safe_integer]); beyond them the code rounds to a double or
      reaches an infinity, so a statement that names the integer a
      request leads to is stated for safe integers.
    - ToString is taken to succeed: [to_string] is total, and statements
      about the text of a request value are made of the values that
      [converts] accepts.
    - Strings are Stdlib byte strings holding the UTF-8 encoding of the
      JavaScript string: [utf8_space] recognises the white space of
      [parseInt] and of the regular expression class [\s] in that
      encoding, and [utf16_length] counts the UTF-16 code units that
      [.length] reports.
    - [await db.query(sql, params)] is an effect: a handler is a program
      of type [Prog] that issues queries and continues with the rows, and
      a rejected query or a thrown [TypeError] transfers control to the
      handler's [catch] block. *)

From Stdlib Require Import ZArith QArith Qcanon String Ascii DecimalString Lia.
From Stdlib Require DecimalPos.
From stdpp Require Import base numbers strings list sorting gmap.

Set Warnings "-register-all".

Open Scope string_scope.
Open Scope Z_scope.

(** ** JavaScript values *)

Module Js.

Inductive jsval : Type :=
| JUndef
| JNull
| JBool (b : bool)
| JNum (n : Z)
| JNaN
| JStr (s : string)
| JArr (items : list jsval)
| JObj (fields : list (string * jsval)).

(** ToBoolean: what [!v], [v || w] and [if (v)] test. *)
Definition truthy (v : jsval) : bool :=
  match v with
  | JUndef | JNull | JNaN => false
  | JBool b => b
  | JNum n => negb (n =? 0)
  | JStr s => negb (String.eqb s "")
  | JArr _ | JObj _ => true
  end.

(** [a || b] *)
Definition js_or (a b : jsval) : jsval := if truthy a then a else b.

(** [a && b] *)
Definition js_and (a b : jsval) : jsval := if truthy a then b else a.

Definition string_of_Z (n : Z) : string := NilZero.string_of_int (Z.to_int n).

Fixpoint join (sep : string) (l : list string) : string :=
  match l with
  | [] => ""
  | [x] => x
  | x :: rest => x +:+ sep +:+ join sep rest
  end.

(** ToString.  Inside [Array.prototype.join] the elements [undefined] and
    [null] print as the empty string. *)
Fixpoint to_string (v : jsval) : string :=
  match v with
  | JUndef => "undefined"
  | JNull => "null"
  | JBool true => "true"
  | JBool false => "false"
  | JNum n => string_of_Z n
  | JNaN => "NaN"
  | JStr s => s
  | JArr items =>
      join ","
        ((fix elems (l : list jsval) : list string :=
            match l with
            | [] => []
            | JUndef :: rest => "" :: elems rest
            | JNull :: rest => "" :: elems rest
            | x :: rest => to_string x :: elems rest
            end) items)
  | JObj _ => "[object Object]"
  end.

(** Property access [o.name] on an object; [get] on [undefined] or
    [null] is a [TypeError] and is handled where it can occur. *)
Fixpoint assoc (name : string) (fields : list (string * jsval)) : jsval :=
  match fields with
  | [] => JUndef
  | (k, v) :: rest => if String.eqb k name then v else assoc name rest
  end.

(** [v.name] for the property names the handlers read from rows; [None]
    is the [TypeError] of reading a property of [undefined] or [null]. *)
Definition get_prop (name : string) (v : jsval) : option jsval :=
  match v with
  | JUndef | JNull => None
  | JObj fields => Some (assoc name fields)
  | _ => Some JUndef
  end.

(** The UTF-16 code units a UTF-8 byte stands for: a continuation byte
    adds none, the lead byte of a four-byte sequence a surrogate pair. *)
Definition utf16_units (c : ascii) : nat :=
  let n := nat_of_ascii c in
  if (n <? 128)%nat then 1%nat
  else if (n <? 192)%nat then 0%nat
  else if (n <? 240)%nat then 1%nat
  else 2%nat.

Fixpoint utf16_length (s : string) : nat :=
  match s with
  | EmptyString => 0%nat
  | String c rest => (utf16_units c + utf16_length rest)%nat
  end.

(** The values ToString converts.  An object parsed from a request
    inherits a callable [toString] unless it has a property of that name
    of its own, which is then a string, a number or another parsed value
    and cannot be called: ToString throws a [TypeError] on such an
    object, and on an array that holds one.  [to_string] above is the
    conversion of the values that pass this test. *)
Fixpoint converts (v : jsval) : bool :=
  match v with
  | JObj fields => negb (existsb (fun kv => String.eqb (fst kv) "toString") fields)
  | JArr items =>
      (fix all (l : list jsval) : bool :=
         match l with
         | [] => true
         | x :: rest => converts x && all rest
         end) items
  | _ => true
  end.

(** [v.length], as used on a request field. *)
Definition js_length (v : jsval) : option jsval :=
  match v with
  | JUndef | JNull => None
  | JStr s => Some (JNum (Z.of_nat (utf16_length s)))
  | JArr items => Some (JNum (Z.of_nat (List.length items)))
  | JObj fields => Some (assoc "length" fields)
  | _ => Some JUndef
  end.

(** [v.name] as read by a client of the JSON body. *)
Definition field (name : string) (v : jsval) : jsval :=
  match v with
  | JObj fields => assoc name fields
  | _ => JUndef
  end.

Definition has_field (name : string) (v : jsval) : bool :=
  match v with
  | JObj fields => existsb (fun kv => String.eqb (fst kv) name) fields
  | _ => false
  end.

(** *** parseInt *)

Definition is_js_space (c : ascii) : bool :=
  let n := nat_of_ascii c in
  ((9 <=? n)%nat && (n <=? 13)%nat) || (n =? 32)%nat.

(** The three-byte white space: U+1680, U+2000 to U+200A, U+2028,
    U+2029, U+202F, U+205F, U+3000 and U+FEFF. *)
Definition utf8_space3 (b1 b2 b3 : nat) : bool :=
  ((b1 =? 225) && (b2 =? 154) && (b3 =? 128))%nat
  || ((b1 =? 226) && (b2 =? 128)
      && (((128 <=? b3) && (b3 <=? 138)) || (b3 =? 168) || (b3 =? 169)
          || (b3 =? 175)))%nat
  || ((b1 =? 226) && (b2 =? 129) && (b3 =? 159))%nat
  || ((b1 =? 227) && (b2 =? 128) && (b3 =? 128))%nat
  || ((b1 =? 239) && (b2 =? 187) && (b3 =? 191))%nat.

(** The number of bytes of the white-space character [s] starts with, 0
    when it starts with none: the ASCII ones, U+00A0 (bytes 194 160) and
    the three-byte ones. *)
Definition utf8_space (s : string) : nat :=
  match s with
  | EmptyString => 0%nat
  | String c1 r1 =>
      let b1 := nat_of_ascii c1 in
      if is_js_space c1 then 1%nat
      else if (b1 =? 194)%nat then
        match r1 with
        | String c2 _ => if (nat_of_ascii c2 =? 160)%nat then 2%nat else 0%nat
        | EmptyString => 0%nat
        end
      else if ((b1 =? 225) || (b1 =? 226) || (b1 =? 227) || (b1 =? 239))%nat then
        match r1 with
        | String c2 (String c3 _) =>
            if utf8_space3 b1 (nat_of_ascii c2) (nat_of_ascii c3) then 3%nat
            else 0%nat
        | _ => 0%nat
        end
      else 0%nat
  end.

(** Drops [pending] bytes, then leading white space. *)
Fixpoint skip_space_from (pending : nat) (s : string) : string :=
  match s with
  | EmptyString => s
  | String c rest =>
      match pending with
      | S k => skip_space_from k rest
      | O =>
          match utf8_space (String c rest) with
          | O => s
          | S k => skip_space_from k rest
          end
      end
  end.

Definition skip_space (s : string) : string := skip_space_from 0 s.

Definition digit_val (radix : Z) (c : ascii) : option Z :=
  let n := Z.of_nat (nat_of_ascii c) in
  let d :=
    if (48 <=? n) && (n <=? 57) then Some (n - 48)
    else if (97 <=? n) && (n <=? 122) then Some (n - 87)
    else if (65 <=? n) && (n <=? 90) then Some (n - 55)
    else None in
  match d with
  | Some k => if k <? radix then Some k else None
  | None => None
  end.

(** The longest prefix of radix digits, as a number; [None] when the
    prefix is empty. *)
Fixpoint digits_prefix (radix : Z) (s : string) (acc : option Z) : option Z :=
  match s with
  | String c rest =>
      match digit_val radix c with
      | Some d =>
          digits_prefix radix rest
            (Some (match acc with Some a => a * radix + d | None => d end))
      | None => acc
      end
  | EmptyString => acc
  end.

Definition strip_sign (s : string) : Z * string :=
  match s with
  | String "-" rest => (-1, rest)
  | String "+" rest => (1, rest)
  | _ => (1, s)
  end.

Definition strip_hex_prefix (s : string) : Z * string :=
  match s with
  | String "0" (String "x" rest) => (16, rest)
  | String "0" (String "X" rest) => (16, rest)
  | _ => (10, s)
  end.

(** [parseInt(v)] with no radix argument. *)
Definition parseInt (v : jsval) : jsval :=
  let '(sign, s1) := strip_sign (skip_space (to_string v)) in
  let '(radix, s2) := strip_hex_prefix s1 in
  match digits_prefix radix s2 None with
  | Some n => JNum (sign * n)
  | None => JNaN
  end.

(** [Number.MAX_SAFE_INTEGER] and [Number.isSafeInteger]: the integers
    a JavaScript number holds exactly, and on which the arithmetic below
    is the arithmetic of the code. *)
Definition max_safe_integer : Z := 2 ^ 53 - 1.

Definition is_safe_integer (n : Z) : Prop :=
  - max_safe_integer ≤ n ≤ max_safe_integer.

(** Arithmetic on the numbers the handlers compute with.  Each operand
    has already been through [parseInt] or [||] with a number, so only
    [JNum] and [JNaN] occur; anything else is mapped to [JNaN]. *)
Definition math_min (a b : jsval) : jsval :=
  match a, b with
  | JNum x, JNum y => JNum (Z.min x y)
  | _, _ => JNaN
  end.

Definition js_sub (a b : jsval) : jsval :=
  match a, b with
  | JNum x, JNum y => JNum (x - y)
  | _, _ => JNaN
  end.

Definition js_mul (a b : jsval) : jsval :=
  match a, b with
  | JNum x, JNum y => JNum (x * y)
  | _, _ => JNaN
  end.

(** [Math.ceil(a / b)]; a zero divisor gives an infinity or NaN, which
    are outside the model and mapped to [JNaN]. *)
Definition math_ceil_div (a b : jsval) : jsval :=
  match a, b with
  | JNum x, JNum y => if y =? 0 then JNaN else JNum (- ((- x) / y))
  | _, _ => JNaN
  end.

(** *** ToNumber, on the integer fragment

    [x < 8] applies ToNumber to [x].  A string converts when, white space
    trimmed, it is empty (0), a signed decimal integer or an unsigned
    hexadecimal one; every other string is [NaN] here. *)

Fixpoint trim_right (s : string) : string :=
  match s with
  | EmptyString => EmptyString
  | String c rest =>
      let rest' := trim_right rest in
      if is_js_space c && String.eqb rest' "" then "" else String c rest'
  end.

Fixpoint digits_all (radix : Z) (s : string) (acc : Z) : option Z :=
  match s with
  | EmptyString => Some acc
  | String c rest =>
      match digit_val radix c with
      | Some d => digits_all radix rest (acc * radix + d)
      | None => None
      end
  end.

Definition string_to_number (s : string) : jsval :=
  let t := trim_right (skip_space s) in
  if String.eqb t "" then JNum 0
  else
    match strip_hex_prefix t with
    | (16, r) =>
        match r, digits_all 16 r 0 with
        | String _ _, Some n => JNum n
        | _, _ => JNaN
        end
    | _ =>
        let '(sign, r) := strip_sign t in
        match r, digits_all 10 r 0 with
        | String _ _, Some n => JNum (sign * n)
        | _, _ => JNaN
        end
    end.

Definition to_number (v : jsval) : jsval :=
  match v with
  | JUndef => JNaN
  | JNull => JNum 0
  | JBool true => JNum 1
  | JBool false => JNum 0
  | JNum n => JNum n
  | JNaN => JNaN
  | _ => string_to_number (to_string v)
  end.

(** [a < b] and [a > b] where one side is a number. *)
Definition js_lt (a b : jsval) : bool :=
  match to_number a, to_number b with
  | JNum x, JNum y => x <? y
  | _, _ => false
  end.

Definition js_gt (a b : jsval) : bool := js_lt b a.

Definition isNaN (v : jsval) : bool :=
  match to_number v with JNaN => true | _ => false end.

(** [s.split(' ')] *)
Fixpoint split_space_aux (cur : string) (s : string) : list string :=
  match s with
  | EmptyString => [cur]
  | String c rest =>
      if Ascii.eqb c " " then cur :: split_space_aux "" rest
      else split_space_aux (cur +:+ String c "") rest
  end.

Definition split_space (s : string) : list string := split_space_aux "" s.

(** [arr[i]] on an array of strings *)
Definition str_index (l : list string) (i : nat) : jsval :=
  match l !! i with
  | Some s => JStr s
  | None => JUndef
  end.

End Js.

Import Js.

(** ** Requests, responses and the database effect *)

Module Http.

Record Response : Type := { status : Z; body : jsval }.

(** The parts of an Express request the patterns read. *)
Record Request : Type := {
  authorization : option string;   (* req.headers['authorization'] *)
  param_id : jsval;                (* req.params.id *)
  query_page : jsval;              (* req.query.page *)
  query_limit : jsval;             (* req.query.limit *)
  req_body : jsval                 (* req.body *)
}.

(** One call of [db.query(sql, values)]. *)
Definition Stmt : Type := (string * list jsval)%type.

Inductive QResult : Type :=
| QRows (rows : list jsval)
| QReject.

(** The body of an async function: it returns ([Ret]), raises an
    exception ([Throw]) or awaits [db.query(sql, values)] and continues
    with [result.rows]; a rejected query raises at the [await]. *)
Inductive Prog (R : Type) : Type :=
| Ret (r : R)
| Throw
| DbQuery (sql : string) (values : list jsval) (k : list jsval -> Prog R).

Arguments Ret {R} r.
Arguments Throw {R}.
Arguments DbQuery {R} sql values k.

(** A route handler: the [try] block, which ends by sending a response,
    and the response sent by the [catch] block. *)
Record Handler : Type := {
  h_try : Request -> Prog Response;
  h_catch : Response
}.

Fixpoint starts_with (p s : string) : bool :=
  match p, s with
  | EmptyString, _ => true
  | String a p', String b s' => Ascii.eqb a b && starts_with p' s'
  | String _ _, EmptyString => false
  end.

Definition is_select (sql : string) : bool :=
  starts_with "SELECT" (skip_space sql).

Definition is_mutation (sql : string) : bool :=
  let s := skip_space sql in
  starts_with "INSERT" s || starts_with "UPDATE" s || starts_with "DELETE" s.

(** A database: a state, the answer to a SELECT (which leaves the state
    alone) and the effect of any other statement. *)
Record Database : Type := {
  db_state : Type;
  db_select : string -> list jsval -> db_state -> QResult;
  db_modify : string -> list jsval -> db_state -> QResult * db_state
}.

Definition db_exec (D : Database) (sql : string) (values : list jsval)
    (st : db_state D) : QResult * db_state D :=
  if is_select sql then (db_select D sql values st, st)
  else db_modify D sql values st.

(** Running a [try] block: the response sent ([None] when control left
    the block by an exception), the statements issued, the final state. *)
Fixpoint run {R : Type} (D : Database) (p : Prog R) (st : db_state D)
    : option R * list Stmt * db_state D :=
  match p with
  | Ret r => (Some r, [], st)
  | Throw => (None, [], st)
  | DbQuery sql values k =>
      match db_exec D sql values st with
      | (QRows rows, st') =>
          let '(r, tr, st'') := run D (k rows) st' in
          (r, (sql, values) :: tr, st'')
      | (QReject, st') => (None, [(sql, values)], st')
      end
  end.

Definition run_handler (D : Database) (h : Handler) (req : Request)
    (st : db_state D) : Response * list Stmt * db_state D :=
  let '(r, tr, st') := run D (h_try h req) st in
  (match r with Some r => r | None => h_catch h end, tr, st').

Definition error_body (msg code : string) : jsval :=
  JObj [("error", JStr msg); ("code", JStr code)].

End Http.

Import Http.

(** ** middleware/auth.js *)

Module Middleware.

Section AuthenticateToken.

(** [jwt.verify(token, process.env.JWT_SECRET)]: the decoded payload, or
    [None] when the library throws (bad signature, expired, malformed). *)
Variable jwt_verify : string -> option jsval.

(** What one call of the middleware did: the response it sent, if any,
    the value it stored in [req.user], and whether it called [next()]. *)
Record AuthOutcome : Type := {
  sent : option Response;
  req_user : option jsval;
  next_called : bool
}.

(** [authHeader && authHeader.split(' ')[1]] *)
Definition bearer_token (authHeader : option string) : jsval :=
  match authHeader with
  | None => JUndef
  | Some h => js_and (JStr h) (str_index (split_space h) 1)
  end.

Definition missing_token : Response :=
  {| status := 401; body := error_body "Authentication required" "MISSING_TOKEN" |}.

Definition invalid_token : Response :=
  {| status := 403; body := error_body "Invalid or expired token" "INVALID_TOKEN" |}.

(** [next_throws] tells whether the rest of the chain, called inside the
    [try] block, raises synchronously; the [catch] block then answers as
    for a bad token. *)
Definition authenticateToken (req : Request) (next_throws : bool) : AuthOutcome :=
  let token := bearer_token (authorization req) in
  if negb (truthy token) then
    {| sent := Some missing_token; req_user := None; next_called := false |}
  else
    match jwt_verify (to_string token) with
    | Some decoded =>
        {| sent := if next_throws then Some invalid_token else None;
           req_user := Some decoded;
           next_called := true |}
    | None =>
        {| sent := Some invalid_token; req_user := None; next_called := false |}
    end.

(** [router.METHOD(path, authenticateToken, handler)]: the handler is an
    async function, so calling it never raises synchronously. *)
Definition protected_route (D : Database) (h : Handler) (req : Request)
    (st : db_state D) : Response * list Stmt * db_state D :=
  let auth := authenticateToken req false in
  match sent auth with
  | Some r => (r, [], st)
  | None => run_handler D h req st
  end.

End AuthenticateToken.

End Middleware.

Import Middleware.

(** ** routes/*.js *)

Module Routes.

(** [/^[^\s@]+@[^\s@]+\.[^\s@]+$/.test(v)]: a non-empty local part, one
    [@], and after it a run of characters with a dot that is neither its
    first nor its last character; no white space and no second [@]. *)
Definition regex_ok_at (s : string) : bool :=
  match s with
  | EmptyString => false
  | String c _ => (utf8_space s =? 0)%nat && negb (Ascii.eqb c "@")
  end.

Fixpoint all_ok (s : string) : bool :=
  match s with
  | EmptyString => true
  | String c rest => regex_ok_at (String c rest) && all_ok rest
  end.

(** a dot in [s] that has a character after it *)
Fixpoint dot_before_last (s : string) : bool :=
  match s with
  | EmptyString => false
  | String c rest =>
      (Ascii.eqb c "." && negb (String.eqb rest "")) || dot_before_last rest
  end.

Definition domain_ok (s : string) : bool :=
  match s with
  | EmptyString => false
  | String _ rest => all_ok s && dot_before_last rest
  end.

Fixpoint local_then_domain (seen : bool) (s : string) : bool :=
  match s with
  | EmptyString => false
  | String c rest =>
      if Ascii.eqb c "@" then seen && domain_ok rest
      else regex_ok_at (String c rest) && local_then_domain true rest
  end.

Definition emailRegex_test (v : jsval) : bool :=
  local_then_domain false (to_string v).

(** *** get-users-auth.js: GET /users *)

Definition effective_page (req : Request) : jsval :=
  js_or (parseInt (query_page req)) (JNum 1).

Definition effective_limit (req : Request) : jsval :=
  math_min (js_or (parseInt (query_limit req)) (JNum 20)) (JNum 100).

Definition offset_of (page limit : jsval) : jsval :=
  js_mul (js_sub page (JNum 1)) limit.

Definition sql_list_users : string :=
  "SELECT id, email, username, created_at FROM users ORDER BY created_at DESC LIMIT $1 OFFSET $2".

Definition sql_count_users : string := "SELECT COUNT(*) as total FROM users".

Definition get_users : Handler := {|
  h_try := fun req =>
    let page := effective_page req in
    let limit := effective_limit req in
    let offset := offset_of page limit in
    DbQuery sql_list_users [limit; offset] (fun users =>
    DbQuery sql_count_users [] (fun countRows =>
    match get_prop "total" (default JUndef (countRows !! 0%nat)) with
    | None => Throw
    | Some t =>
        let total := parseInt t in
        let totalPages := math_ceil_div total limit in
        Ret {| status := 200;
               body := JObj [("data", JArr users);
                             ("pagination",
                              JObj [("page", page);
                                    ("limit", limit);
                                    ("total", total);
                                    ("totalPages", totalPages);
                                    ("hasNext", JBool (js_lt page totalPages));
                                    ("hasPrev", JBool (js_gt page (JNum 1)))])] |}
    end));
  h_catch := {| status := 500;
                body := error_body "Failed to fetch users" "FETCH_USERS_ERROR" |}
|}.

(** *** get-user-by-id-auth.js: GET /users/:id *)

Definition invalid_id : Response :=
  {| status := 400; body := error_body "Invalid user ID format" "INVALID_ID" |}.

Definition user_not_found : Response :=
  {| status := 404; body := error_body "User not found" "USER_NOT_FOUND" |}.

Definition sql_user_by_id : string :=
  "SELECT id, email, username, created_at FROM users WHERE id = $1".

Definition get_user_by_id : Handler := {|
  h_try := fun req =>
    let userId := parseInt (param_id req) in
    if isNaN userId then Ret invalid_id
    else
      DbQuery sql_user_by_id [userId] (fun rows =>
      if (List.length rows =? 0)%nat then Ret user_not_found
      else
        Ret {| status := 200;
               body := JObj [("data", default JUndef (rows !! 0%nat))] |});
  h_catch := {| status := 500;
                body := error_body "Failed to fetch user" "FETCH_USER_ERROR" |}
|}.

(** *** post-users-auth.js: POST /users *)

Definition sql_user_exists : string := "SELECT id FROM users WHERE id = $1".

Definition sql_post_duplicate : string :=
  "SELECT id FROM users WHERE email = $1 OR username = $2".

Definition sql_insert_user : string :=
  "INSERT INTO users (email, username, password_hash, created_at) VALUES ($1, $2, $3, NOW()) RETURNING id, email, username, created_at".

Definition duplicate_user (msg : string) : Response :=
  {| status := 409; body := error_body msg "DUPLICATE_USER" |}.

Definition invalid_email : Response :=
  {| status := 400; body := error_body "Invalid email format" "INVALID_EMAIL" |}.

Definition post_users : Handler := {|
  h_try := fun req =>
    match get_prop "email" (req_body req),
          get_prop "username" (req_body req),
          get_prop "password" (req_body req) with
    | Some email, Some username, Some password =>
        if negb (truthy email) || negb (truthy username) || negb (truthy password)
        then
          Ret {| status := 400;
                 body := JObj [("error", JStr "Missing required fields");
                               ("code", JStr "MISSING_FIELDS");
                               ("required",
                                JArr [JStr "email"; JStr "username"; JStr "password"])] |}
        else if negb (emailRegex_test email) then Ret invalid_email
        else
          match js_length password with
          | None => Throw
          | Some len =>
              if js_lt len (JNum 8) then
                Ret {| status := 400;
                       body := error_body "Password must be at least 8 characters"
                                          "INVALID_PASSWORD" |}
              else
                DbQuery sql_post_duplicate [email; username] (fun existingUser =>
                if (0 <? List.length existingUser)%nat then
                  Ret (duplicate_user "User with this email or username already exists")
                else
                  DbQuery sql_insert_user [email; username; password] (fun rows =>
                  let newUser := default JUndef (rows !! 0%nat) in
                  match get_prop "id" newUser, get_prop "email" newUser,
                        get_prop "username" newUser, get_prop "created_at" newUser with
                  | Some id, Some e, Some u, Some created_at =>
                      Ret {| status := 201;
                             body := JObj [("data",
                                     JObj [("id", id); ("email", e); ("username", u);
                                           ("created_at", created_at)])] |}
                  | _, _, _, _ => Throw
                  end))
          end
    | _, _, _ => Throw
    end;
  h_catch := {| status := 500;
                body := error_body "Failed to create user" "CREATE_USER_ERROR" |}
|}.

(** *** put-user-auth.js: PUT /users/:id *)

Definition sql_put_duplicate : string :=
  "SELECT id FROM users WHERE (email = $1 OR username = $2) AND id != $3".

(** The three locals of the dynamic UPDATE builder: [updates], [values]
    and [paramCount]. *)
Record Builder : Type := {
  updates : list string;
  values : list jsval;
  paramCount : Z
}.

(** [if (field) { updates.push(`col = $${paramCount}`);
                  values.push(field); paramCount++; }] *)
Definition push_field (col : string) (field : jsval) (b : Builder) : Builder :=
  if truthy field then
    {| updates := (updates b ++ [col +:+ " = $" +:+ string_of_Z (paramCount b)])%list;
       values := (values b ++ [field])%list;
       paramCount := paramCount b + 1 |}
  else b.

Definition build_update (email username userId : jsval) : Stmt :=
  let b0 := {| updates := []; values := []; paramCount := 1 |} in
  let b1 := push_field "email" email b0 in
  let b2 := push_field "username" username b1 in
  let updates3 := (updates b2 ++ ["updated_at = NOW()"])%list in
  let values3 := (values b2 ++ [userId])%list in
  ("UPDATE users SET " +:+ join ", " updates3 +:+ " WHERE id = $"
     +:+ string_of_Z (paramCount b2)
     +:+ " RETURNING id, email, username, created_at, updated_at",
   values3).

Definition put_user : Handler := {|
  h_try := fun req =>
    let userId := parseInt (param_id req) in
    if isNaN userId then Ret invalid_id
    else
      match get_prop "email" (req_body req), get_prop "username" (req_body req) with
      | Some email, Some username =>
          if negb (truthy email) && negb (truthy username) then
            Ret {| status := 400;
                   body := JObj [("error", JStr "At least one field required for update");
                                 ("code", JStr "MISSING_UPDATE_FIELDS");
                                 ("allowed", JArr [JStr "email"; JStr "username"])] |}
          else if truthy email && negb (emailRegex_test email) then Ret invalid_email
          else
            DbQuery sql_user_exists [userId] (fun existingUser =>
            if (List.length existingUser =? 0)%nat then Ret user_not_found
            else
              let update :=
                let '(sql, vals) := build_update email username userId in
                DbQuery sql vals (fun rows =>
                Ret {| status := 200;
                       body := JObj [("data", default JUndef (rows !! 0%nat))] |}) in
              if truthy (js_or email username) then
                DbQuery sql_put_duplicate
                  [js_or email (JStr ""); js_or username (JStr ""); userId]
                  (fun duplicateCheck =>
                   if (0 <? List.length duplicateCheck)%nat then
                     Ret (duplicate_user "Email or username already taken")
                   else update)
              else update)
      | _, _ => Throw
      end;
  h_catch := {| status := 500;
                body := error_body "Failed to update user" "UPDATE_USER_ERROR" |}
|}.

(** *** delete-user-auth.js: DELETE /users/:id (soft delete) *)

Definition sql_soft_delete : string :=
  "UPDATE users SET is_deleted = true, deleted_at = NOW() WHERE id = $1 RETURNING id, deleted_at".

(** [new Date().toISOString()], read when the row carries no
    [deleted_at]; the clock is outside the model. *)
Definition now_iso : jsval := JStr "<now>".

Definition delete_user : Handler := {|
  h_try := fun req =>
    let userId := parseInt (param_id req) in
    if isNaN userId then Ret invalid_id
    else
      DbQuery sql_user_exists [userId] (fun existingUser =>
      if (List.length existingUser =? 0)%nat then Ret user_not_found
      else
        DbQuery sql_soft_delete [userId] (fun rows =>
        let deletedUser := default JUndef (rows !! 0%nat) in
        match get_prop "id" deletedUser, get_prop "deleted_at" deletedUser with
        | Some id, Some deleted_at =>
            Ret {| status := 200;
                   body := JObj [("message", JStr "User deleted successfully");
                                 ("data", JObj [("id", id);
                                                ("deleted_at", js_or deleted_at now_iso)])] |}
        | _, _ => Throw
        end));
  h_catch := {| status := 500;
                body := error_body "Failed to delete user" "DELETE_USER_ERROR" |}
|}.

End Routes.
Import Routes.

(** ** queries/*.js

    A query function receives its JavaScript arguments as a list and
    returns a value; it has no [catch], so a rejected query or a failed
    destructuring propagates to the caller as [Throw]. *)

Module Queries.

Definition arg (args : list jsval) (i : nat) : jsval := default JUndef (args !! i).

(** [rows[0]], also what the pattern [{ rows: [x] }] binds. *)
Definition first_row (rows : list jsval) : jsval := default JUndef (rows !! 0%nat).

Definition sql_create_user : string := "
    INSERT INTO users (email, username, password_hash, created_at)
    VALUES ($1, $2, $3, NOW())
    RETURNING *
  ".

Definition createUser (args : list jsval) : Prog jsval :=
  match get_prop "email" (arg args 0), get_prop "username" (arg args 0),
        get_prop "password_hash" (arg args 0) with
  | Some email, Some username, Some password_hash =>
      DbQuery sql_create_user [email; username; password_hash]
        (fun rows => Ret (first_row rows))
  | _, _, _ => Throw
  end.

Definition sql_get_users : string := "SELECT * FROM users".

Definition getUsers (args : list jsval) : Prog jsval :=
  DbQuery sql_get_users [] (fun rows => Ret (JArr rows)).

Definition sql_get_users_by_email : string := "SELECT * FROM users WHERE email = $1".

Definition getUsersByEmail (args : list jsval) : Prog jsval :=
  DbQuery sql_get_users_by_email [arg args 0] (fun rows => Ret (JArr rows)).

Definition sql_order_by_id : string := "
    SELECT
      orders.id,
      orders.total_amount,
      orders.order_status,
      orders.created_date,
      customers.id AS customer_id,
      customers.company_name,
      customers.contact_name,
      customers.email AS customer_email
    FROM orders
    LEFT JOIN customers ON orders.customer_id = customers.id
    WHERE orders.id = $1
  ".

Definition getOrderByIdWithDetails (args : list jsval) : Prog jsval :=
  DbQuery sql_order_by_id [arg args 0] (fun rows => Ret (first_row rows)).

Definition sql_orders_by_customer : string := "
    SELECT
      orders.id,
      orders.total_amount,
      orders.order_status,
      orders.created_date,
      customers.id AS customer_id,
      customers.company_name,
      customers.contact_name,
      customers.email AS customer_email
    FROM orders
    LEFT JOIN customers ON orders.customer_id = customers.id
    WHERE orders.customer_id = $1
  ".

Definition getOrdersByCustomerIdWithDetails (args : list jsval) : Prog jsval :=
  DbQuery sql_orders_by_customer [arg args 0] (fun rows => Ret (JArr rows)).

Definition sql_orders_with_details : string := "
    SELECT
      orders.id,
      orders.total_amount,
      orders.order_status,
      orders.created_date,
      customers.id AS customer_id,
      customers.company_name,
      customers.contact_name,
      customers.email AS customer_email
    FROM orders
    LEFT JOIN customers ON orders.customer_id = customers.id
  ".

Definition getOrdersWithDetails (args : list jsval) : Prog jsval :=
  DbQuery sql_orders_with_details [] (fun rows => Ret (JArr rows)).

Definition sql_get_user_by_id : string := "SELECT * FROM users WHERE id = $1".

Definition getUserById (args : list jsval) : Prog jsval :=
  DbQuery sql_get_user_by_id [arg args 0] (fun rows => Ret (first_row rows)).

Definition sql_delete_user : string := "
    UPDATE users
    SET is_deleted = true, deleted_at = NOW()
    WHERE id = $1
    RETURNING id
  ".

Definition deleteUser (args : list jsval) : Prog jsval :=
  DbQuery sql_delete_user [arg args 0] (fun rows =>
  let deleted := first_row rows in
  if negb (truthy deleted) then Throw else Ret deleted).

Definition sql_update_user : string := "
    UPDATE users
    SET email = $1, username = $2, updated_at = NOW()
    WHERE id = $3
    RETURNING *
  ".

Definition updateUser (args : list jsval) : Prog jsval :=
  match get_prop "email" (arg args 1), get_prop "username" (arg args 1) with
  | Some email, Some username =>
      DbQuery sql_update_user [email; username; arg args 0] (fun rows =>
      let user := first_row rows in
      if negb (truthy user) then Throw else Ret user)
  | _, _ => Throw
  end.

End Queries.

Import Queries.

(** ** The route and query patterns of the catalog, by their PATTERN
    titles *)

Module PatternFiles.

Inductive Pattern : Type :=
| RoutePattern (h : Handler)
| QueryPattern (f : list jsval -> Prog jsval).

Definition route_and_query_patterns : list (string * Pattern) :=
  [ ("Express GET Route with Authentication and Pagination", RoutePattern get_users);
    ("Express GET by ID Route with Authentication", RoutePattern get_user_by_id);
    ("Express POST Route with Authentication and Validation", RoutePattern post_users);
    ("Express PUT Route with Authentication and Validation", RoutePattern put_user);
    ("Express DELETE Route with Authentication", RoutePattern delete_user);
    ("Create Query Function", QueryPattern createUser);
    ("Get All Query Function", QueryPattern getUsers);
    ("Get By Field Query Function", QueryPattern getUsersByEmail);
    ("Get By ID With Join Query Function", QueryPattern getOrderByIdWithDetails);
    ("Get By Field With Join Query Function", QueryPattern getOrdersByCustomerIdWithDetails);
    ("Get With Join Query Function", QueryPattern getOrdersWithDetails);
    ("Get By ID Query Function", QueryPattern getUserById);
    ("Delete Query Function", QueryPattern deleteUser);
    ("Update Query Function", QueryPattern updateUser) ].

(** The statements one activation of a pattern issues on a database. *)
Definition statements_of (D : Database) (p : Pattern) (req : Request)
    (args : list jsval) (st : db_state D) : list Stmt :=
  match p with
  | RoutePattern h => snd (fst (run_handler D h req st))
  | QueryPattern f => snd (fst (run D (f args) st))
  end.

(** *** Positional parameters in a statement text *)

Definition dec_digit (c : ascii) : option Z := digit_val 10 c.

Definition emit (st : option (option Z)) : list Z :=
  match st with
  | Some (Some n) => [n]
  | _ => []
  end.

(** The numbers [k] of the placeholders [$k] of a text, left to right.
    The scanner state is [None] outside a placeholder, [Some None] just
    after a dollar sign and [Some (Some n)] while reading digits. *)
Fixpoint scan_placeholders (st : option (option Z)) (s : string) : list Z :=
  match s with
  | EmptyString => emit st
  | String c rest =>
      if Ascii.eqb c "$" then (emit st ++ scan_placeholders (Some None) rest)%list
      else
        match st, dec_digit c with
        | Some acc, Some d =>
            scan_placeholders (Some (Some (10 * default 0 acc + d))) rest
        | _, _ => (emit st ++ scan_placeholders None rest)%list
        end
  end.

Definition placeholders (sql : string) : list Z := scan_placeholders None sql.

(** Every placeholder [$1 .. $n] occurs, in order, and there are exactly
    [n] bound values. *)
Definition positionally_bound (s : Stmt) : Prop :=
  placeholders (fst s) = map Z.of_nat (seq 1 (List.length (snd s))).

(** The possible texts of the PUT pattern's UPDATE: which columns are set
    depends on which fields are present, and on nothing else. *)
Definition update_text (with_email with_username : bool) : string :=
  match with_email, with_username with
  | true, true =>
      "UPDATE users SET email = $1, username = $2, updated_at = NOW() WHERE id = $3 RETURNING id, email, username, created_at, updated_at"
  | true, false =>
      "UPDATE users SET email = $1, updated_at = NOW() WHERE id = $2 RETURNING id, email, username, created_at, updated_at"
  | false, true =>
      "UPDATE users SET username = $1, updated_at = NOW() WHERE id = $2 RETURNING id, email, username, created_at, updated_at"
  | false, false =>
      "UPDATE users SET updated_at = NOW() WHERE id = $1 RETURNING id, email, username, created_at, updated_at"
  end.

(** Every statement text a route or query pattern can issue. *)
Definition statement_texts : list string :=
  [ sql_list_users; sql_count_users; sql_user_by_id; sql_user_exists;
    sql_post_duplicate; sql_insert_user; sql_put_duplicate; sql_soft_delete;
    update_text true true; update_text true false; update_text false true;
    sql_create_user; sql_get_users; sql_get_users_by_email; sql_order_by_id;
    sql_orders_by_customer; sql_orders_with_details; sql_get_user_by_id;
    sql_delete_user; sql_update_user ].

End PatternFiles.

Import PatternFiles.

(** ** An in-memory users table, to run the patterns on *)

Module MemDb.

Record UserRow : Type := { u_id : Z; u_email : string; u_username : string }.

Definition row_obj (u : UserRow) : jsval :=
  JObj [("id", JNum (u_id u)); ("email", JStr (u_email u));
        ("username", JStr (u_username u))].

Definition nth_string (values : list jsval) (i : nat) : string :=
  to_string (default JUndef (values !! i)).

Definition mem_select (sql : string) (values : list jsval) (st : list UserRow)
    : QResult :=
  if String.eqb sql sql_post_duplicate then
    QRows (row_obj <$>
           filter (fun u => u_email u = nth_string values 0
                            ∨ u_username u = nth_string values 1) st)
  else if String.eqb sql sql_put_duplicate then
    QRows (row_obj <$>
           filter (fun u => (u_email u = nth_string values 0
                             ∨ u_username u = nth_string values 1)
                            ∧ string_of_Z (u_id u) ≠ nth_string values 2) st)
  else if String.eqb sql sql_user_exists || String.eqb sql sql_user_by_id then
    QRows (row_obj <$> filter (fun u => string_of_Z (u_id u) = nth_string values 0) st)
  else if String.eqb sql sql_count_users then
    QRows [JObj [("total", JStr (string_of_Z (Z.of_nat (List.length st))))]]
  else QRows (row_obj <$> st).

Definition mem_modify (sql : string) (values : list jsval) (st : list UserRow)
    : QResult * list UserRow :=
  if String.eqb sql sql_insert_user then
    let u := {| u_id := Z.of_nat (S (List.length st));
                u_email := nth_string values 0;
                u_username := nth_string values 1 |} in
    (QRows [row_obj u], (st ++ [u])%list)
  else (QRows (row_obj <$> st), st).

Definition mem_db : Database :=
  {| db_state := list UserRow; db_select := mem_select; db_modify := mem_modify |}.

Definition alice : UserRow :=
  {| u_id := 1; u_email := "alice@example.com"; u_username := "alice" |}.

Definition bob : UserRow :=
  {| u_id := 2; u_email := "bob@example.com"; u_username := "bob" |}.

Definition request (auth : option string) (id page limit body : jsval) : Request :=
  {| authorization := auth; param_id := id; query_page := page;
     query_limit := limit; req_body := body |}.

End MemDb.

Import MemDb.
(** ** The pattern engine

    The engine (catalog loader, ranker, validator, orchestrator) is the
    Python package the README starts with [python -m lysithea.cli]; the
    definitions of this module follow its specification. *)

Module Engine.

(** Modelled from the spec: the data model of section 3 (PatternRecord,
    RequestQuery, MatchResult, AdaptedArtifact, ValidationReport), whose
    declarations are not among the repository's source files.  Sets of
    capability tags are finite sets of strings; scores are rationals. *)
Inductive Operation : Type :=
| OpCreate | OpReadOne | OpReadMany | OpUpdate | OpDelete | OpAuth | OpOther.

Global Instance Operation_eq_dec : EqDecision Operation.
Proof. solve_decision. Defined.

Inductive SlotType : Type := SlotIdentifier | SlotFieldList | SlotLiteral.

Record PatternRecord : Type := {
  id : string;
  domain : string;
  operation : Operation;
  capabilities : gset string;
  template : string;
  slots : list (string * SlotType)
}.

Record RequestQuery : Type := {
  resource : string;
  query_operation : Operation;
  required_capabilities : gset string
}.

Record MatchResult : Type := {
  pattern_id : string;
  match_score : Qc;
  missing_capabilities : gset string
}.

Record AdaptedArtifact : Type := {
  source_pattern_id : string;
  artifact_body : string;
  substitutions : list (string * string);
  capabilities_inherited : gset string
}.

Record Violation : Type := { capability : string; reason : string }.

Record ValidationReport : Type := {
  passed : bool;
  score : Qc;
  violations : list Violation
}.

(** *** Catalog *)

Definition is_ident_char (c : ascii) : bool :=
  let n := nat_of_ascii c in
  ((97 <=? n) && (n <=? 122) || (65 <=? n) && (n <=? 90)
   || (48 <=? n) && (n <=? 57) || (n =? 95))%nat.

(** Modelled from the spec: the slot syntax of a template, [{name}] as in
    [{resource}], [{primary_key_field}], [{searchable_fields}].  The
    scanner state is the name read since the last opening brace. *)
Fixpoint scan_slots (cur : option string) (s : string) : list string :=
  match s with
  | EmptyString => []
  | String c rest =>
      if Ascii.eqb c "{" then scan_slots (Some "") rest
      else
        match cur with
        | Some name =>
            if Ascii.eqb c "}" then
              ((if String.eqb name "" then [] else [name]) ++ scan_slots None rest)%list
            else if is_ident_char c then scan_slots (Some (name +:+ String c "")) rest
            else scan_slots None rest
        | None => scan_slots None rest
        end
  end.

Definition template_slots (t : string) : list string := scan_slots None t.

Definition declared_slots (p : PatternRecord) : list string := (slots p).*1.

Inductive CatalogIntegrityError : Type :=
| UndeclaredSlot (pattern slot : string)
| UnreferencedSlot (pattern slot : string)
| DuplicateId (pattern : string).

(** The first element of [l] that is not in [among]. *)
Definition first_missing (l among : list string) : option string :=
  List.find (fun s => negb (bool_decide (s ∈ among))) l.

Definition check_slots (p : PatternRecord) : option CatalogIntegrityError :=
  match first_missing (template_slots (template p)) (declared_slots p) with
  | Some s => Some (UndeclaredSlot (id p) s)
  | None =>
      match first_missing (declared_slots p) (template_slots (template p)) with
      | Some s => Some (UnreferencedSlot (id p) s)
      | None => None
      end
  end.

(** Modelled from the spec: [load(source) -> Catalog], which is not among
    the repository's source files.  The source is the sequence of parsed
    records, in insertion order; loading checks the slot invariant of
    every record and that no identifier occurs twice, and fails with the
    first [CatalogIntegrityError] it meets. *)
Fixpoint load_from (seen : gset string) (source : list PatternRecord)
    : CatalogIntegrityError + list PatternRecord :=
  match source with
  | [] => inr []
  | p :: rest =>
      if bool_decide (id p ∈ seen) then inl (DuplicateId (id p))
      else
        match check_slots p with
        | Some e => inl e
        | None =>
            match load_from ({[id p]} ∪ seen) rest with
            | inl e => inl e
            | inr cat => inr (p :: cat)
            end
        end
  end.

Definition load (source : list PatternRecord)
    : CatalogIntegrityError + list PatternRecord :=
  load_from ∅ source.

Definition find_by_domain_operation (cat : list PatternRecord)
    (d : string) (op : Operation) : list PatternRecord :=
  filter (fun p => domain p = d ∧ operation p = op) cat.

(** The body of database/schema.sql, lines 13 to 28, as a template, and a
    record for it; the file itself states no identifier, domain or slot
    list, the ones below are chosen for the example. *)
Definition schema_sql_template : string := "-- Table: {resource}
CREATE TABLE IF NOT EXISTS {resource} (
  id SERIAL PRIMARY KEY,
  name VARCHAR(255) NOT NULL,
  description TEXT,
  price DECIMAL(10, 2),
  created_at TIMESTAMP DEFAULT NOW(),
  updated_at TIMESTAMP,
  is_deleted BOOLEAN DEFAULT FALSE,
  deleted_at TIMESTAMP
);

-- Indexes for common queries
CREATE INDEX IF NOT EXISTS idx_{resource}_name ON {resource}(name);
CREATE INDEX IF NOT EXISTS idx_{resource}_created_at ON {resource}(created_at);
CREATE INDEX IF NOT EXISTS idx_{resource}_is_deleted ON {resource}(is_deleted);".

Definition schema_pattern : PatternRecord := {|
  id := "database/schema.sql";
  domain := "sql-schema";
  operation := OpOther;
  capabilities := ∅;
  template := schema_sql_template;
  slots := [("resource", SlotIdentifier)]
|}.

(** *** Quality validator *)

Section Validator.

(** The capability detectors: [detect c body] tells whether the static
    check for capability [c] succeeds on the artifact body. *)
Variable detect : string -> string -> bool.

Definition unmet (c : string) : Violation :=
  {| capability := c; reason := "required capability not detected: " +:+ c |}.

(** One pass over the required capabilities, counting the satisfied ones
    and collecting a violation for each of the others. *)
Fixpoint check_all (body : string) (required : list string)
    : nat * list Violation :=
  match required with
  | [] => (0%nat, [])
  | c :: rest =>
      let '(n, vs) := check_all body rest in
      if detect c body then (S n, vs) else (n, unmet c :: vs)
  end.

Definition Qc_of_nat (n : nat) : Qc := Qc_of_Z (Z.of_nat n).

(** Modelled from the spec: [validate(artifact, required_capabilities)],
    which is not among the repository's source files.  The score is the
    satisfied fraction of the required capabilities (1 when nothing is
    required, as in the ranker), and the report passes when the score is
    one. *)
Definition validate (a : AdaptedArtifact) (required : gset string)
    : ValidationReport :=
  let req := elements required in
  let '(n, vs) := check_all (artifact_body a) req in
  let s := match req with
           | [] => 1%Qc
           | _ => (Qc_of_nat n / Qc_of_nat (List.length req))%Qc
           end in
  {| passed := bool_decide (s = 1%Qc); score := s; violations := vs |}.

End Validator.

(** *** Matcher / ranker *)

Section Ranker.

(** Which operations belong to one CRUD family; the specification names
    the notion and leaves its extent to the implementation. *)
Variable same_crud_family : Operation -> Operation -> bool.

(** Modelled from the spec: the scoring function of section 4.3 with its
    default weights 0.6 and 0.4. *)
Definition operation_match_weight : Qc := Q2Qc (6 # 10).
Definition capability_weight : Qc := Q2Qc (4 # 10).

Definition operation_factor (p : PatternRecord) (q : RequestQuery) : Qc :=
  if bool_decide (operation p = query_operation q) then 1%Qc
  else if same_crud_family (operation p) (query_operation q) then Q2Qc (4 # 10)
  else 0%Qc.

Definition capability_factor (p : PatternRecord) (q : RequestQuery) : Qc :=
  let required := required_capabilities q in
  if bool_decide (size required = 0%nat) then 1%Qc
  else (Qc_of_nat (size (required ∩ capabilities p)) / Qc_of_nat (size required))%Qc.

Definition pattern_score (p : PatternRecord) (q : RequestQuery) : Qc :=
  (operation_match_weight * operation_factor p q
   + capability_weight * capability_factor p q)%Qc.

(** A scored catalog entry, with what the tie-break rule looks at. *)
Record Candidate : Type := {
  cand_index : nat;              (* position in the catalog *)
  cand_pattern : PatternRecord;
  cand_exact : bool;             (* operation matches exactly *)
  cand_result : MatchResult
}.

Definition candidate (q : RequestQuery) (i : nat) (p : PatternRecord) : Candidate :=
  {| cand_index := i;
     cand_pattern := p;
     cand_exact := bool_decide (operation p = query_operation q);
     cand_result :=
       {| pattern_id := id p;
          match_score := pattern_score p q;
          missing_capabilities := required_capabilities q ∖ capabilities p |} |}.

Definition eligible (target_domain : string) (c : Candidate) : Prop :=
  domain (cand_pattern c) = target_domain ∧ match_score (cand_result c) ≠ 0%Qc.

Global Instance eligible_dec d c : Decision (eligible d c).
Proof. unfold eligible. apply _. Defined.

Definition candidates (q : RequestQuery) (target_domain : string)
    (cat : list PatternRecord) : list Candidate :=
  filter (eligible target_domain) (imap (candidate q) cat).

Definition exact_rank (c : Candidate) : nat := if cand_exact c then 0 else 1.

Definition missing_count (c : Candidate) : nat :=
  size (missing_capabilities (cand_result c)).

Definition cand_score (c : Candidate) : Qc := match_score (cand_result c).

(** Modelled from the spec: the order of section 3 on match results.
    [precedes a b]: [a] is ranked no later than [b].  Higher score
    first; then an exact operation match; then fewer missing
    capabilities; then the earlier catalog entry. *)
Definition precedes (a b : Candidate) : Prop :=
  (cand_score b < cand_score a)%Qc ∨
  (cand_score a = cand_score b ∧
   ((exact_rank a < exact_rank b)%nat ∨
    (exact_rank a = exact_rank b ∧
     ((missing_count a < missing_count b)%nat ∨
      (missing_count a = missing_count b ∧ (cand_index a ≤ cand_index b)%nat))))).

Global Instance precedes_dec : RelDecision precedes.
Proof. intros a b. unfold precedes. apply _. Defined.

Definition rank_candidates (q : RequestQuery) (target_domain : string)
    (cat : list PatternRecord) : list Candidate :=
  merge_sort precedes (candidates q target_domain cat).

(** Modelled from the spec: [rank(query, catalog)] with the caller's
    target domain, which is not among the repository's source files. *)
Definition rank (q : RequestQuery) (target_domain : string)
    (cat : list PatternRecord) : list MatchResult :=
  cand_result <$> rank_candidates q target_domain cat.

End Ranker.

(** *** Orchestrator *)

Inductive AdaptError : Type := UnresolvedSlotError | AdaptationRegressionError.

Inductive RejectedError : Type := AmbiguousRequestError | NoPatternFoundError.

(** Modelled from the spec: the states of section 4.6 and the errors of
    section 7.  An [Attempt] is an artifact that went through validation,
    with its report. *)
Record Attempt : Type := {
  att_artifact : AdaptedArtifact;
  att_report : ValidationReport
}.

(** The best-scoring attempt of a list; among equal scores, the earliest. *)
Fixpoint best_of (l : list Attempt) : option Attempt :=
  match l with
  | [] => None
  | a :: rest =>
      match best_of rest with
      | Some b =>
          if decide (score (att_report a) < score (att_report b))%Qc
          then Some b else Some a
      | None => Some a
      end
  end.

Inductive Control : Type :=
| Extracting (prompt : string)
| Matching (q : RequestQuery)
| Adapting (q : RequestQuery) (cur : Candidate) (rest : list Candidate) (repairs : nat)
| Validating (q : RequestQuery) (cur : Candidate) (rest : list Candidate)
    (repairs : nat) (a : AdaptedArtifact)
| Repairing (q : RequestQuery) (cur : Candidate) (rest : list Candidate) (repairs : nat)
| Accepted (a : AdaptedArtifact) (r : ValidationReport)
| Exhausted (best : option Attempt) (surfaced : option AdaptError)
| Rejected (e : RejectedError).

(** The orchestrator's state: where it is, the failed attempts so far
    (oldest first) and the last adaptation error. *)
Record State : Type := {
  control : Control;
  failed : list Attempt;
  last_error : option AdaptError
}.

(** The default of the configured repair bound. *)
Definition default_max_repair_attempts : nat := 2.

Section Orchestrator.

Variable same_crud_family : Operation -> Operation -> bool.
Variable detect : string -> string -> bool.

(** [extract(prompt)]; [None] is [AmbiguousRequestError]. *)
Variable extract : string -> option RequestQuery.

(** [adapt(pattern, query, context)]; the attempt number stands for what
    may differ between two calls on the same pattern (the external
    model's rewrite). *)
Variable adapt : PatternRecord -> RequestQuery -> nat -> AdaptError + AdaptedArtifact.

Variable catalog : list PatternRecord.
Variable target_domain : string.
Variable max_repair_attempts : nat.

Definition initial (prompt : string) : State :=
  {| control := Extracting prompt; failed := []; last_error := None |}.

(** Modelled from the spec: one transition of the orchestrator's state
    machine, which is not among the repository's source files. *)
Definition step (s : State) : State :=
  let goto c := {| control := c; failed := failed s; last_error := last_error s |} in
  match control s with
  | Extracting prompt =>
      match extract prompt with
      | Some q => goto (Matching q)
      | None => goto (Rejected AmbiguousRequestError)
      end
  | Matching q =>
      match rank_candidates same_crud_family q target_domain catalog with
      | [] => goto (Rejected NoPatternFoundError)
      | c :: rest => goto (Adapting q c rest 0)
      end
  | Adapting q cur rest repairs =>
      match adapt (cand_pattern cur) q repairs with
      | inr a => goto (Validating q cur rest repairs a)
      | inl e =>
          {| control := Repairing q cur rest repairs;
             failed := failed s; last_error := Some e |}
      end
  | Validating q cur rest repairs a =>
      let r := validate detect a (required_capabilities q) in
      if passed r then goto (Accepted a r)
      else
        {| control := Repairing q cur rest repairs;
           failed := failed s ++ [{| att_artifact := a; att_report := r |}];
           last_error := last_error s |}
  | Repairing q cur rest repairs =>
      if decide (repairs < max_repair_attempts)%nat
      then goto (Adapting q cur rest (S repairs))
      else
        match rest with
        | next :: rest' => goto (Adapting q next rest' 0)
        | [] => goto (Exhausted (best_of (failed s)) (last_error s))
        end
  | Accepted _ _ | Exhausted _ _ | Rejected _ => s
  end.

Definition is_terminal (s : State) : bool :=
  match control s with
  | Accepted _ _ | Exhausted _ _ | Rejected _ => true
  | _ => false
  end.

Fixpoint steps (n : nat) (s : State) : State :=
  match n with
  | O => s
  | S n' => steps n' (step s)
  end.

(** Modelled from the spec: [Orchestrator.run(prompt, target_domain,
    context)].  The number of transitions is bounded by the length of the
    ranked list and the repair bound, so the fuel below always suffices. *)
Definition run_fuel (prompt : string) : nat :=
  match extract prompt with
  | Some q =>
      2 + 3 * (S max_repair_attempts)
          * List.length (rank_candidates same_crud_family q target_domain catalog)
  | None => 1
  end.

Definition orchestrate (prompt : string) : State :=
  steps (run_fuel prompt) (initial prompt).

End Orchestrator.

End Engine.
Import Engine.

(** * Properties of the patterns *)

(** ** Running a program *)

Section Running.

Context (D : Database).

Lemma run_handler_response (h : Handler) (req : Request) (st : db_state D) :
  (run_handler D h req st).1.1
  = default (h_catch h) (run D (h_try h req) st).1.1.
Proof.
  unfold run_handler. destruct (run D (h_try h req) st) as [[[r |] tr] st']; reflexivity.
Qed.

Lemma run_handler_trace (h : Handler) (req : Request) (st : db_state D) :
  (run_handler D h req st).1.2 = (run D (h_try h req) st).1.2.
Proof.
  unfold run_handler. destruct (run D (h_try h req) st) as [[r tr] st']; reflexivity.
Qed.

Lemma run_handler_state (h : Handler) (req : Request) (st : db_state D) :
  (run_handler D h req st).2 = (run D (h_try h req) st).2.
Proof.
  unfold run_handler. destruct (run D (h_try h req) st) as [[r tr] st']; reflexivity.
Qed.

Lemma run_query_head {R : Type} (sql : string) (vals : list jsval)
    (k : list jsval → Prog R) (st : db_state D) :
  head (run D (DbQuery sql vals k) st).1.2 = Some (sql, vals).
Proof.
  cbn [run]. destruct (db_exec D sql vals st) as [[rows |] st1]; [| reflexivity].
  destruct (run D (k rows) st1) as [[r tr] st2]. reflexivity.
Qed.

End Running.

(** Case analysis on the answer of the next [db.query]. *)
Ltac exec_db :=
  match goal with
  | |- context [db_exec ?D ?sql ?v ?st] =>
      let rows := fresh "rows" in
      let st' := fresh "st" in
      let E := fresh "Hexec" in
      destruct (db_exec D sql v st) as [[rows |] st'] eqn:E; cbn
  end.

(** ** Decimal strings through [parseInt] *)

Section ParseIntDecimal.

(** The number a run of decimal digits denotes, most significant first,
    continuing from [acc]. *)
Fixpoint uint_value (d : Decimal.uint) (acc : Z) : Z :=
  match d with
  | Decimal.Nil => acc
  | Decimal.D0 d => uint_value d (acc * 10 + 0)
  | Decimal.D1 d => uint_value d (acc * 10 + 1)
  | Decimal.D2 d => uint_value d (acc * 10 + 2)
  | Decimal.D3 d => uint_value d (acc * 10 + 3)
  | Decimal.D4 d => uint_value d (acc * 10 + 4)
  | Decimal.D5 d => uint_value d (acc * 10 + 5)
  | Decimal.D6 d => uint_value d (acc * 10 + 6)
  | Decimal.D7 d => uint_value d (acc * 10 + 7)
  | Decimal.D8 d => uint_value d (acc * 10 + 8)
  | Decimal.D9 d => uint_value d (acc * 10 + 9)
  end.

Ltac eval_digit :=
  match goal with
  | |- context [digit_val 10 ?c] =>
      let v := eval vm_compute in (digit_val 10 c) in
      change (digit_val 10 c) with v
  end.

Lemma digits_prefix_some (d : Decimal.uint) (a : Z) :
  digits_prefix 10 (NilEmpty.string_of_uint d) (Some a) = Some (uint_value d a).
Proof.
  revert a.
  induction d; intros a; cbn [NilEmpty.string_of_uint digits_prefix uint_value];
    [reflexivity | ..]; eval_digit; cbv iota; apply IHd.
Qed.

Lemma digits_prefix_none (d : Decimal.uint) :
  d ≠ Decimal.Nil →
  digits_prefix 10 (NilEmpty.string_of_uint d) None = Some (uint_value d 0).
Proof.
  destruct d; [done | ..]; intros _;
    cbn [NilEmpty.string_of_uint digits_prefix uint_value];
    eval_digit; cbv iota; apply digits_prefix_some.
Qed.

Lemma uint_value_of_lu (d d' : Decimal.uint) :
  uint_value d (Z.of_N (DecimalPos.Unsigned.of_lu d'))
  = Z.of_N (DecimalPos.Unsigned.of_lu (Decimal.revapp d d')).
Proof.
  revert d'. induction d; intros d'; cbn [uint_value Decimal.revapp];
    [reflexivity | ..]; rewrite <- IHd; f_equal;
    cbn [DecimalPos.Unsigned.of_lu]; lia.
Qed.

Lemma uint_value_to_uint (p : positive) :
  uint_value (Pos.to_uint p) 0 = Z.pos p.
Proof.
  change 0 with (Z.of_N (DecimalPos.Unsigned.of_lu Decimal.Nil)).
  rewrite uint_value_of_lu.
  change (Decimal.revapp (Pos.to_uint p) Decimal.Nil) with (Decimal.rev (Pos.to_uint p)).
  by rewrite <- DecimalPos.Unsigned.of_uint_alt, DecimalPos.Unsigned.of_to.
Qed.

(** The text of a non-empty run of digits is taken as it is by the
    first steps of [parseInt]: no white space, no sign, no [0x]. *)
Lemma digits_not_prefixed (d : Decimal.uint) :
  d ≠ Decimal.Nil →
  skip_space (NilEmpty.string_of_uint d) = NilEmpty.string_of_uint d
  ∧ strip_sign (NilEmpty.string_of_uint d) = (1, NilEmpty.string_of_uint d)
  ∧ strip_hex_prefix (NilEmpty.string_of_uint d) = (10, NilEmpty.string_of_uint d).
Proof.
  destruct d as [| d | d | d | d | d | d | d | d | d | d]; [done | ..]; intros _;
    (split; [reflexivity |]; split; [reflexivity |]);
    first [reflexivity | destruct d; reflexivity].
Qed.

(** [parseInt(String(n)) = n] for every integer [n]. *)
Lemma parseInt_string_of_Z (n : Z) : parseInt (JStr (string_of_Z n)) = JNum n.
Proof.
  unfold parseInt, string_of_Z. cbn [to_string].
  destruct n as [| p | p]; [reflexivity | |]; cbn [Z.to_int NilZero.string_of_int].
  - pose proof (DecimalPos.Unsigned.to_uint_nonnil p) as Hnil.
    assert (NilZero.string_of_uint (Pos.to_uint p)
            = NilEmpty.string_of_uint (Pos.to_uint p)) as ->.
    { by destruct (Pos.to_uint p). }
    destruct (digits_not_prefixed _ Hnil) as (-> & -> & ->).
    rewrite digits_prefix_none, uint_value_to_uint by done. reflexivity.
  - pose proof (DecimalPos.Unsigned.to_uint_nonnil p) as Hnil.
    assert (NilZero.string_of_uint (Pos.to_uint p)
            = NilEmpty.string_of_uint (Pos.to_uint p)) as ->.
    { by destruct (Pos.to_uint p). }
    match goal with
    | |- context [skip_space (String "-" ?r)] =>
        change (skip_space (String "-" r)) with (String "-" r)
    end.
    cbn [strip_sign]. destruct (digits_not_prefixed _ Hnil) as (_ & _ & ->).
    rewrite digits_prefix_none, uint_value_to_uint by done. reflexivity.
Qed.

End ParseIntDecimal.

(** ** Pagination in GET /users *)

Section Pagination.

Lemma parseInt_number (v : jsval) :
  parseInt v = JNaN ∨ ∃ n, parseInt v = JNum n.
Proof.
  unfold parseInt.
  destruct (strip_sign _) as [sign s1], (strip_hex_prefix s1) as [radix s2].
  destruct (digits_prefix radix s2 None); eauto.
Qed.

(** [parseInt(x) || k] for a non-zero default [k] is a non-zero number. *)
Lemma parseInt_or_default (v : jsval) (k : Z) :
  k ≠ 0 →
  ∃ n, js_or (parseInt v) (JNum k) = JNum n ∧ n ≠ 0
       ∧ (parseInt v = JNaN ∨ parseInt v = JNum 0 → n = k).
Proof.
  intros Hk. destruct (parseInt_number v) as [-> | [n ->]].
  - exists k. cbn. auto.
  - unfold js_or. cbn. destruct (Z.eqb_spec n 0) as [-> | Hn]; cbn.
    + exists k. auto.
    + exists n. repeat split; auto. intros [? | ?]; congruence.
Qed.

Definition is_decimal_digit (c : ascii) : bool :=
  let n := nat_of_ascii c in ((48 <=? n) && (n <=? 57))%nat.

(** A value is non-numeric when its text, after leading white space and
    an optional sign, does not start with a decimal digit. *)
Definition non_numeric (v : jsval) : bool :=
  match snd (strip_sign (skip_space (to_string v))) with
  | String c _ => negb (is_decimal_digit c)
  | EmptyString => true
  end.

Lemma digit_val_10_not_decimal (c : ascii) :
  is_decimal_digit c = false → digit_val 10 c = None.
Proof.
  destruct c as [[] [] [] [] [] [] [] []]; vm_compute; congruence.
Qed.

Lemma not_decimal_not_zero (c : ascii) :
  is_decimal_digit c = false → c ≠ "0"%char.
Proof. intros H ->. vm_compute in H. congruence. Qed.

Lemma parseInt_non_numeric (v : jsval) :
  non_numeric v = true → parseInt v = JNaN.
Proof.
  unfold non_numeric, parseInt.
  destruct (strip_sign _) as [sign s1]. cbn [snd].
  destruct s1 as [| c rest]; [reflexivity |].
  intros Hc. apply negb_true_iff in Hc.
  assert (strip_hex_prefix (String c rest) = (10, String c rest)) as ->.
  { unfold strip_hex_prefix.
    destruct c as [[] [] [] [] [] [] [] []]; try reflexivity.
    vm_compute in Hc. congruence. }
  cbn [digits_prefix]. rewrite digit_val_10_not_decimal by done. reflexivity.
Qed.

Lemma effective_limit_spec (req : Request) :
  ∃ l, effective_limit req = JNum l ∧ l ≤ 100 ∧ l ≠ 0
       ∧ (parseInt (query_limit req) = JNaN ∨ parseInt (query_limit req) = JNum 0
          → l = 20).
Proof.
  unfold effective_limit.
  destruct (parseInt_or_default (query_limit req) 20) as (n & -> & Hn & Hdef); [lia |].
  exists (Z.min n 100). cbn. repeat split; try lia.
  intros H. rewrite (Hdef H). reflexivity.
Qed.

Lemma effective_page_spec (req : Request) :
  ∃ p, effective_page req = JNum p ∧ p ≠ 0.
Proof.
  unfold effective_page.
  destruct (parseInt_or_default (query_page req) 1) as (n & -> & Hn & _); [lia |].
  eauto.
Qed.

(** The first statement GET /users issues, whatever the database. *)
Lemma get_users_first_statement (D : Database) (req : Request) (st : db_state D) :
  head (run_handler D get_users req st).1.2
  = Some (sql_list_users,
          [effective_limit req; offset_of (effective_page req) (effective_limit req)]).
Proof.
  rewrite run_handler_trace. apply run_query_head.
Qed.

Lemma get_users_200_has_pagination (D : Database) (req : Request) (st : db_state D) :
  status (run_handler D get_users req st).1.1 = 200 →
  has_field "pagination" (body (run_handler D get_users req st).1.1) = true.
Proof.
  rewrite run_handler_response. cbn [h_try h_catch get_users run].
  exec_db; [| discriminate].
  exec_db; [| discriminate].
  destruct (get_prop "total" _); cbn; [reflexivity | discriminate].
Qed.

(** A limit written after a no-break space (U+00A0) or a byte order mark
    (U+FEFF) is numeric; one that starts with a letter is not. *)
Example parseInt_leading_space :
  parseInt (JStr (String "194" (String "160" "50"))) = JNum 50
  ∧ parseInt (JStr (String "239" (String "187" (String "191" " -7px")))) = JNum (-7)
  ∧ non_numeric (JStr (String "194" (String "160" "50"))) = false
  ∧ non_numeric (JStr "é5") = true.
Proof. repeat split; reflexivity. Qed.

(** What a query parameter asks for: the default when it is absent,
    non-numeric or zero, and otherwise the integer it spells. *)
Definition requested (v : jsval) (dflt n : Z) : Prop :=
  ((v = JUndef ∨ non_numeric v = true) ∧ n = dflt)
  ∨ ∃ k, v = JStr (string_of_Z k) ∧ is_safe_integer k
         ∧ n = (if k =? 0 then dflt else k).

Lemma requested_or_default (v : jsval) (dflt n : Z) :
  dflt ≠ 0 → requested v dflt n → js_or (parseInt v) (JNum dflt) = JNum n.
Proof.
  intros Hd [[Habs ->] | (k & -> & _ & ->)].
  - assert (parseInt v = JNaN) as ->; [| reflexivity].
    destruct Habs as [-> | Hnn]; [reflexivity | by apply parseInt_non_numeric].
  - rewrite parseInt_string_of_Z. unfold js_or. cbn [truthy].
    by destruct (Z.eqb_spec k 0).
Qed.

(** C6. In GET /users, for every request and every database: an absent
    or non-numeric [limit] gives the effective limit 20 (and an absent or
    non-numeric [page] the page 1); the effective limit is a number that
    never exceeds 100; the list query is issued first, with the values
    [limit] and [(page - 1) * limit] computed from the effective page and
    limit; for a page [p] and a limit [l] requested as above, with the
    offset a safe integer, these values are [min l 100] and
    [(p - 1) * min l 100]; and every 200 response body has a [pagination]
    field.  The page and the limit are values that convert to text. *)
Theorem get_users_pagination (D : Database) (req : Request) (st : db_state D) :
  converts (query_page req) = true → converts (query_limit req) = true →
  (query_limit req = JUndef ∨ non_numeric (query_limit req) = true →
   effective_limit req = JNum 20)
  ∧ (query_page req = JUndef ∨ non_numeric (query_page req) = true →
     effective_page req = JNum 1)
  ∧ (js_gt (effective_limit req) (JNum 100) = false
     ∧ isNaN (effective_limit req) = false)
  ∧ head (run_handler D get_users req st).1.2
    = Some (sql_list_users,
            [effective_limit req;
             js_mul (js_sub (effective_page req) (JNum 1)) (effective_limit req)])
  ∧ (∀ p l,
       requested (query_page req) 1 p → requested (query_limit req) 20 l →
       is_safe_integer ((p - 1) * Z.min l 100) →
       effective_page req = JNum p
       ∧ effective_limit req = JNum (Z.min l 100)
       ∧ head (run_handler D get_users req st).1.2
         = Some (sql_list_users, [JNum (Z.min l 100); JNum ((p - 1) * Z.min l 100)]))
  ∧ (status (run_handler D get_users req st).1.1 = 200 →
     has_field "pagination" (body (run_handler D get_users req st).1.1) = true).
Proof.
  intros _ _.
  destruct (effective_limit_spec req) as (l & Hl & Hle & _ & Hdef).
  split; [| split; [| split; [| split; [| split]]]].
  - intros Habs. unfold effective_limit.
    by rewrite (requested_or_default _ 20 20); [| | left].
  - intros Habs. by apply (requested_or_default _ 1 1); [| left].
  - rewrite Hl. unfold js_gt, js_lt, isNaN. cbn [to_number].
    split; [| reflexivity]. apply Z.ltb_ge. lia.
  - apply get_users_first_statement.
  - intros p' l' Hp' Hl' _.
    apply requested_or_default in Hp'; [| done].
    apply requested_or_default in Hl'; [| done].
    assert (effective_limit req = JNum (Z.min l' 100)) as Hlim.
    { unfold effective_limit. by rewrite Hl'. }
    repeat split; [done .. |].
    rewrite get_users_first_statement, Hlim. unfold offset_of, effective_page.
    by rewrite Hp'.
  - apply get_users_200_has_pagination.
Qed.

Lemma get_users_pagination_witness :
  effective_limit (request None JUndef (JStr "2") (JStr "ten") JUndef) = JNum 20
  ∧ head (run_handler mem_db get_users
            (request None JUndef (JStr "3") (JStr "250") JUndef) [alice]).1.2
    = Some (sql_list_users, [JNum 100; JNum 200])
  ∧ has_field "pagination"
      (body (run_handler mem_db get_users
               (request None JUndef (JStr "2") (JStr "ten") JUndef) [alice]).1.1) = true.
Proof.
  pose proof (get_users_pagination mem_db
                (request None JUndef (JStr "2") (JStr "ten") JUndef) [alice]
                eq_refl eq_refl)
    as (Hlimit & _ & _ & _ & _ & Hbody).
  pose proof (get_users_pagination mem_db
                (request None JUndef (JStr "3") (JStr "250") JUndef) [alice]
                eq_refl eq_refl)
    as (_ & _ & _ & _ & Hvalues & _).
  split; [| split].
  - apply Hlimit. right. reflexivity.
  - refine (proj2 (proj2 (Hvalues 3 250 _ _ _))).
    + right. exists 3. repeat split; first [reflexivity | by vm_compute].
    + right. exists 250. repeat split; first [reflexivity | by vm_compute].
    + split; by vm_compute.
  - apply Hbody. reflexivity.
Defined.

(** C10. The limit computation bounds the limit from above only: the
    request [limit=-5] binds the negative value -5 to [LIMIT], the
    request [limit=0] falls back to 20, and the request [page=-3] binds
    a negative [OFFSET]. *)
Theorem limit_has_no_lower_bound :
  (∀ (D : Database) (st : db_state D),
     head (run_handler D get_users
             (request None JUndef JUndef (JStr "-5") JUndef) st).1.2
     = Some (sql_list_users, [JNum (-5); JNum 0]))
  ∧ effective_limit (request None JUndef JUndef (JStr "0") JUndef) = JNum 20
  ∧ (∀ (D : Database) (st : db_state D),
       head (run_handler D get_users
               (request None JUndef (JStr "-3") JUndef JUndef) st).1.2
       = Some (sql_list_users, [JNum 20; JNum (-80)])).
Proof.
  split; [| split].
  - intros D st. rewrite get_users_first_statement. reflexivity.
  - reflexivity.
  - intros D st. rewrite get_users_first_statement. reflexivity.
Qed.

End Pagination.

(** ** The token middleware *)

Section TokenMiddleware.

Variable jwt_verify : string → option jsval.



End TokenMiddleware.

Definition demo_verify (token : string) : option jsval :=
  if String.eqb token "good" then Some (JObj [("sub", JNum 1)]) else None.


(** ** Positional parameters in every statement *)

Section ParameterizedSql.

(** [AllStmts P p]: every statement [p] can issue, whatever rows the
    database answers with, satisfies [P]. *)
Inductive AllStmts {R : Type} (P : Stmt → Prop) : Prog R → Prop :=
| AllRet (r : R) : AllStmts P (Ret r)
| AllThrow : AllStmts P Throw
| AllQuery (sql : string) (vals : list jsval) (k : list jsval → Prog R) :
    P (sql, vals) → (∀ rows, AllStmts P (k rows)) → AllStmts P (DbQuery sql vals k).

Lemma AllStmts_run {R : Type} (P : Stmt → Prop) (D : Database) (p : Prog R) :
  AllStmts P p → ∀ st, Forall P (run D p st).1.2.
Proof.
  induction 1 as [r | | sql vals k HP _ IH]; intros st; cbn [run].
  - constructor.
  - constructor.
  - destruct (db_exec D sql vals st) as [[rows |] st1].
    + specialize (IH rows st1).
      destruct (run D (k rows) st1) as [[r tr] st2]. cbn in *.
      by constructor.
    + cbn. by repeat constructor.
Qed.

(** The dynamic UPDATE of the PUT pattern: its text is one of the fixed
    texts, chosen by which fields are present, and its values are the
    present fields followed by the user id. *)
Lemma build_update_eq (email username userId : jsval) :
  build_update email username userId
  = (update_text (truthy email) (truthy username),
     (if truthy email then [email] else [])
       ++ (if truthy username then [username] else []) ++ [userId])%list.
Proof.
  unfold build_update, push_field.
  destruct (truthy email), (truthy username); reflexivity.
Qed.

Definition parameterized (s : Stmt) : Prop :=
  s.1 ∈ statement_texts ∧ positionally_bound s.

Ltac parameterized_stmt :=
  split; [apply (bool_decide_unpack _); vm_compute; exact I | vm_compute; reflexivity].

Ltac all_stmts :=
  repeat first
    [ apply AllRet
    | apply AllThrow
    | apply AllQuery; [parameterized_stmt | intros ?]
    | case_match ].

Lemma put_user_parameterized (req : Request) :
  AllStmts parameterized (h_try put_user req).
Proof.
  cbn [h_try put_user].
  destruct (isNaN _); [apply AllRet |].
  destruct (get_prop "email" _) as [email |]; [| apply AllThrow].
  destruct (get_prop "username" _) as [username |]; [| apply AllThrow].
  rewrite build_update_eq. unfold js_or.
  destruct (truthy email) eqn:He, (truthy username) eqn:Hu; cbn;
    rewrite ?He, ?Hu; all_stmts.
Qed.

Lemma route_patterns_parameterized (h : Handler) (req : Request) :
  h ∈ [get_users; get_user_by_id; post_users; delete_user] →
  AllStmts parameterized (h_try h req).
Proof.
  intros Hin. repeat (apply elem_of_cons in Hin as [-> | Hin]);
    [.. | by apply elem_of_nil in Hin]; cbn [h_try get_users get_user_by_id
      post_users delete_user]; all_stmts.
Qed.

Lemma query_patterns_parameterized (f : list jsval → Prog jsval) (args : list jsval) :
  f ∈ [createUser; getUsers; getUsersByEmail; getOrderByIdWithDetails;
       getOrdersByCustomerIdWithDetails; getOrdersWithDetails; getUserById;
       deleteUser; updateUser] →
  AllStmts parameterized (f args).
Proof.
  intros Hin. repeat (apply elem_of_cons in Hin as [-> | Hin]);
    [.. | by apply elem_of_nil in Hin];
    unfold createUser, getUsers, getUsersByEmail, getOrderByIdWithDetails,
      getOrdersByCustomerIdWithDetails, getOrdersWithDetails, getUserById,
      deleteUser, updateUser; all_stmts.
Qed.

(** C5. Every statement a route or query pattern issues, for every
    request, argument list and database, has one of the fixed statement
    texts and binds its values positionally as [$1 .. $n]; the UPDATE the
    PUT pattern assembles is the fixed text selected by which fields are
    present, with exactly the present fields and the id as values. *)
Theorem catalog_sql_is_parameterized :
  (∀ (D : Database) (name : string) (p : Pattern) (req : Request)
     (args : list jsval) (st : db_state D),
     (name, p) ∈ route_and_query_patterns →
     Forall (λ s, s.1 ∈ statement_texts ∧ positionally_bound s)
       (statements_of D p req args st))
  ∧ (∀ email username userId : jsval,
       build_update email username userId
       = (update_text (truthy email) (truthy username),
          (if truthy email then [email] else [])
            ++ (if truthy username then [username] else []) ++ [userId])%list).
Proof.
  split; [| apply build_update_eq].
  intros D name p req args st Hin. unfold route_and_query_patterns in Hin.
  repeat (apply elem_of_cons in Hin as [[= -> ->] | Hin]);
    [.. | by apply elem_of_nil in Hin]; cbn [statements_of];
    rewrite ?run_handler_trace; apply (AllStmts_run parameterized);
    first [ apply put_user_parameterized
          | apply route_patterns_parameterized; set_solver
          | apply query_patterns_parameterized; set_solver ].
Qed.

Lemma catalog_sql_is_parameterized_witness :
  Forall (λ s, s.1 ∈ statement_texts ∧ positionally_bound s)
    (statements_of mem_db (RoutePattern put_user)
       (request None (JStr "1") JUndef JUndef (JObj [("username", JStr "al")]))
       [] [alice]).
Proof.
  apply (proj1 catalog_sql_is_parameterized mem_db
           "Express PUT Route with Authentication and Validation").
  set_solver.
Defined.

End ParameterizedSql.

Lemma get_prop_field (name : string) (v x : jsval) :
  get_prop name v = Some x → x = field name v.
Proof. destruct v; cbn; congruence. Qed.

(** ** Duplicate check before create and update *)

Section DuplicateCheck.

Context (D : Database).

Lemma db_exec_select (sql : string) (vals : list jsval) (st : db_state D) :
  is_select sql = true → db_exec D sql vals st = (db_select D sql vals st, st).
Proof. unfold db_exec. by intros ->. Qed.

(** [guarded dup seen tr]: in the trace [tr], every mutation comes after
    a statement with the text [dup] ([seen] tells whether one came before
    the trace). *)
Fixpoint guarded (dup : string) (seen : bool) (tr : list Stmt) : bool :=
  match tr with
  | [] => true
  | s :: rest =>
      (negb (is_mutation s.1) || seen)
      && guarded dup (seen || String.eqb s.1 dup) rest
  end.

Lemma guarded_spec (dup : string) (tr : list Stmt) (seen : bool) :
  guarded dup seen tr = true →
  ∀ pre m post, tr = (pre ++ m :: post)%list → is_mutation m.1 = true →
  seen = true ∨ ∃ s, s ∈ pre ∧ s.1 = dup.
Proof.
  revert seen. induction tr as [| s rest IH]; intros seen Hg pre m post Heq Hm.
  - by destruct pre.
  - cbn in Hg. apply andb_true_iff in Hg as [Hs Hrest].
    destruct pre as [| s' pre']; cbn in Heq; injection Heq as -> ->.
    + rewrite Hm in Hs. cbn in Hs. by left.
    + destruct (IH _ Hrest pre' m post eq_refl Hm) as [Hseen | (s & Hin & Hdup)].
      * apply orb_true_iff in Hseen as [-> | Heqb]; [by left |].
        right. exists s'. split; [by left |]. by apply String.eqb_eq.
      * right. exists s. split; [by right | done].
Qed.

Definition no_mutation (tr : list Stmt) : bool :=
  forallb (λ s, negb (is_mutation s.1)) tr.

(** The values the existence query is bound to.  POST looks for the
    [email] and the [username] of the body; PUT looks for [email || ''],
    [username || ''] and excludes the row of the parsed [id]. *)
Definition post_duplicate_values (req : Request) : list jsval :=
  [field "email" (req_body req); field "username" (req_body req)].

Definition put_duplicate_values (req : Request) : list jsval :=
  [js_or (field "email" (req_body req)) (JStr "");
   js_or (field "username" (req_body req)) (JStr "");
   parseInt (param_id req)].

(** What the two mutating handlers guarantee about one run: the trace is
    guarded by the duplicate check, the duplicate check is bound to the
    values of the request, and a duplicate check that finds a row ends
    the run with 409, no mutation and the state it started in. *)
Definition checks_duplicates (h : Handler) (dup : string) (vals : list jsval)
    (req : Request) (st : db_state D) : Prop :=
  let out := run_handler D h req st in
  guarded dup false out.1.2 = true
  ∧ (∀ s, s ∈ out.1.2 → s.1 = dup → s.2 = vals)
  ∧ ∀ vals' r rs,
      (dup, vals') ∈ out.1.2 → db_select D dup vals' st = QRows (r :: rs) →
      status out.1.1 = 409 ∧ no_mutation out.1.2 = true ∧ out.2 = st.

Ltac trace_cases H :=
  repeat (apply elem_of_cons in H as [H | H];
          [ apply pair_equal_spec in H as [H ?];
            first [ by vm_compute in H | subst ] | ]);
  try (by apply elem_of_nil in H).

Ltac bound_values :=
  let Hin := fresh "Hin" in
  let Hd := fresh "Hd" in
  intros ? Hin Hd;
  repeat (apply elem_of_cons in Hin as [-> | Hin];
          [ first [ reflexivity | by vm_compute in Hd ] | ]);
  by apply elem_of_nil in Hin.

Ltac no_query :=
  cbn; split; [reflexivity | split; [bound_values |]];
  intros ??? Hin; by apply elem_of_nil in Hin.

Ltac close_run :=
  cbn; split; [reflexivity | split; [bound_values |]];
  let Hin := fresh "Hin" in
  intros ??? Hin ?;
  first [ by repeat split; vm_compute
        | exfalso; trace_cases Hin; congruence ].

Ltac request_field H :=
  apply get_prop_field in H; subst.

Lemma post_users_checks_duplicates (req : Request) (st : db_state D) :
  checks_duplicates post_users sql_post_duplicate (post_duplicate_values req) req st.
Proof.
  unfold checks_duplicates, post_duplicate_values.
  rewrite run_handler_response, run_handler_trace, run_handler_state.
  cbn [h_try h_catch post_users].
  destruct (get_prop "email" _) as [email |] eqn:He; [| no_query].
  destruct (get_prop "username" _) as [username |] eqn:Hu; [| no_query].
  destruct (get_prop "password" _) as [password |] eqn:Hp; [| no_query].
  request_field He. request_field Hu.
  destruct (_ || _); [no_query |].
  destruct (negb (emailRegex_test _)); [no_query |].
  destruct (js_length password) as [len |]; [| no_query].
  destruct (js_lt len (JNum 8)); [no_query |].
  cbn [run]. rewrite db_exec_select by reflexivity.
  destruct (db_select D sql_post_duplicate _ st) as [[| r0 rs0] |] eqn:Hsel;
    cbn [run List.length Nat.ltb Nat.leb]; [| close_run ..].
  exec_db; [| close_run].
  repeat (destruct (get_prop _ (default JUndef (rows !! 0%nat)))); close_run.
Qed.

Lemma put_user_checks_duplicates (req : Request) (st : db_state D) :
  checks_duplicates put_user sql_put_duplicate (put_duplicate_values req) req st.
Proof.
  unfold checks_duplicates, put_duplicate_values.
  rewrite run_handler_response, run_handler_trace, run_handler_state.
  cbn [h_try h_catch put_user].
  destruct (isNaN _); [no_query |].
  destruct (get_prop "email" _) as [email |] eqn:Hpe; [| no_query].
  destruct (get_prop "username" _) as [username |] eqn:Hpu; [| no_query].
  request_field Hpe. request_field Hpu.
  rewrite build_update_eq. unfold js_or.
  destruct (truthy (field "email" _)) eqn:He,
           (truthy (field "username" _)) eqn:Hu;
    cbn [negb andb orb]; rewrite ?He, ?Hu; try no_query.
  all: try (destruct (negb (emailRegex_test _)); [no_query |]).
  all: cbn [run]; rewrite db_exec_select by reflexivity.
  all: destruct (db_select D sql_user_exists _ st) as [[| u0 us0] |] eqn:Hex;
    cbn [run List.length Nat.eqb]; [close_run | | close_run].
  all: rewrite db_exec_select by reflexivity.
  all: destruct (db_select D sql_put_duplicate _ st) as [[| r0 rs0] |] eqn:Hsel;
    cbn [run List.length Nat.ltb Nat.leb update_text]; [| close_run ..].
  all: exec_db; close_run.
Qed.

(** C7. In the create (POST) and update (PUT) route patterns, for every
    request and database: every INSERT or UPDATE in the run comes after
    the existence query, bound to the email and the username of the
    request ([email], [username] in POST; [email || ''], [username || '']
    and the parsed [id] in PUT); the existence query is never issued with
    other values; and when it finds a row, the response is 409, no
    mutation is executed and the stored state is the one the run started
    in. *)
Theorem duplicate_check_precedes_mutation (h : Handler) (dup : string)
    (vals : Request → list jsval) (req : Request) (st : db_state D) :
  (h, dup, vals) ∈ [(post_users, sql_post_duplicate, post_duplicate_values);
                    (put_user, sql_put_duplicate, put_duplicate_values)] →
  let out := run_handler D h req st in
  (∀ pre m post, out.1.2 = (pre ++ m :: post)%list → is_mutation m.1 = true →
     (dup, vals req) ∈ pre)
  ∧ (∀ s, s ∈ out.1.2 → s.1 = dup → s = (dup, vals req))
  ∧ (∀ vals' r rs,
       (dup, vals') ∈ out.1.2 → db_select D dup vals' st = QRows (r :: rs) →
       status out.1.1 = 409
       ∧ Forall (λ s, is_mutation s.1 = false) out.1.2
       ∧ out.2 = st).
Proof.
  intros Hin.
  assert (checks_duplicates h dup (vals req) req st) as (Hguard & Hvals & Hdup).
  { apply elem_of_cons in Hin as [[= -> -> ->] | Hin];
      [apply post_users_checks_duplicates |].
    apply elem_of_cons in Hin as [[= -> -> ->] | Hin];
      [apply put_user_checks_duplicates | by apply elem_of_nil in Hin]. }
  cbv zeta.
  assert (∀ s, s ∈ (run_handler D h req st).1.2 → s.1 = dup → s = (dup, vals req))
    as Hstmt.
  { intros [text vs] Hs Hd. cbn in Hd. subst text. f_equal. by apply (Hvals _ Hs). }
  split; [| split; [done |]].
  - intros pre m post Heq Hm.
    destruct (guarded_spec _ _ _ Hguard pre m post Heq Hm) as [? | (s & Hs & Hd)];
      [done |].
    rewrite <- (Hstmt s); [done | | done].
    rewrite Heq. apply elem_of_app. by left.
  - intros vals' r rs Htr Hsel.
    destruct (Hdup vals' r rs Htr Hsel) as (Hst & Hnm & Hdb).
    repeat split; try done.
    apply Forall_forall. intros s Hs. unfold no_mutation in Hnm.
    rewrite forallb_forall in Hnm. apply negb_true_iff, Hnm.
    by apply list_elem_of_In.
Qed.

End DuplicateCheck.

(** POST with a username that is taken, and PUT renaming user 2 to the
    email of user 1: the UPDATE never runs. *)
Lemma duplicate_check_precedes_mutation_witness :
  let post := request None JUndef JUndef JUndef
                (JObj [("email", JStr "al@example.com"); ("username", JStr "alice");
                       ("password", JStr "12345678")]) in
  let put := request None (JStr "2") JUndef JUndef
               (JObj [("email", JStr "alice@example.com")]) in
  (status (run_handler mem_db post_users post [alice]).1.1 = 409
   ∧ (run_handler mem_db post_users post [alice]).2 = [alice])
  ∧ (status (run_handler mem_db put_user put [alice; bob]).1.1 = 409
     ∧ Forall (λ s, is_mutation s.1 = false)
         (run_handler mem_db put_user put [alice; bob]).1.2
     ∧ (sql_put_duplicate, [JStr "alice@example.com"; JStr ""; JNum 2])
       ∈ (run_handler mem_db put_user put [alice; bob]).1.2).
Proof.
  cbv zeta. split.
  - destruct (duplicate_check_precedes_mutation mem_db post_users sql_post_duplicate
                post_duplicate_values
                (request None JUndef JUndef JUndef
                   (JObj [("email", JStr "al@example.com"); ("username", JStr "alice");
                          ("password", JStr "12345678")]))
                [alice]) as (_ & _ & Hdup).
    + left.
    + destruct (Hdup [JStr "al@example.com"; JStr "alice"] (row_obj alice) [])
        as (Hstatus & _ & Hstate).
      * vm_compute. left.
      * reflexivity.
      * split; assumption.
  - destruct (duplicate_check_precedes_mutation mem_db put_user sql_put_duplicate
                put_duplicate_values
                (request None (JStr "2") JUndef JUndef
                   (JObj [("email", JStr "alice@example.com")]))
                [alice; bob]) as (_ & _ & Hdup).
    + right; left.
    + destruct (Hdup [JStr "alice@example.com"; JStr ""; JNum 2] (row_obj alice) [])
        as (Hstatus & Hnone & _).
      * vm_compute. right; left.
      * reflexivity.
      * repeat split; [assumption .. |]. vm_compute. right; left.
Defined.

(** * Properties of the engine *)

(** ** Slot integrity of a loaded catalog *)

Section CatalogIntegrity.

Lemma first_missing_none (l among : list string) :
  first_missing l among = None → ∀ s, s ∈ l → s ∈ among.
Proof.
  unfold first_missing. intros Hnone s Hs.
  apply list_elem_of_In in Hs.
  pose proof (find_none _ _ Hnone s Hs) as Hdec. cbn in Hdec.
  apply negb_false_iff in Hdec. by apply bool_decide_eq_true in Hdec.
Qed.

Lemma check_slots_none (p : PatternRecord) :
  check_slots p = None →
  ∀ s, s ∈ template_slots (template p) ↔ s ∈ declared_slots p.
Proof.
  unfold check_slots.
  destruct (first_missing (template_slots _) _) eqn:Hundeclared; [discriminate |].
  destruct (first_missing (declared_slots _) _) eqn:Hunreferenced; [discriminate |].
  intros _ s. split; by apply first_missing_none.
Qed.

Lemma load_from_ok (seen : gset string) (source cat : list PatternRecord) :
  load_from seen source = inr cat →
  cat = source ∧ Forall (λ p, check_slots p = None) cat.
Proof.
  revert seen cat. induction source as [| p rest IH]; intros seen cat; cbn.
  - intros [= <-]. by split.
  - destruct (bool_decide _); [discriminate |].
    destruct (check_slots p) eqn:Hp; [discriminate |].
    destruct (load_from _ rest) as [e | cat'] eqn:Hrest; [discriminate |].
    intros [= <-]. destruct (IH _ _ Hrest) as [-> Hall].
    split; [reflexivity | by constructor].
Qed.

(** C4. For every pattern of every successfully loaded catalog, the
    slots referenced in the template are exactly the declared slots:
    each referenced slot is declared and each declared slot is
    referenced. *)
Theorem loaded_catalog_slot_integrity (source cat : list PatternRecord)
    (p : PatternRecord) (s : string) :
  load source = inr cat → p ∈ cat →
  (s ∈ template_slots (template p) ↔ s ∈ declared_slots p).
Proof.
  intros Hload Hp. apply load_from_ok in Hload as [_ Hall].
  rewrite Forall_forall in Hall. by apply check_slots_none, Hall.
Qed.

Lemma loaded_catalog_slot_integrity_witness :
  "resource" ∈ template_slots schema_sql_template
  ↔ "resource" ∈ declared_slots schema_pattern.
Proof.
  apply (loaded_catalog_slot_integrity [schema_pattern] [schema_pattern] schema_pattern).
  - reflexivity.
  - left.
Defined.

End CatalogIntegrity.

(** ** The validator's score *)

Section ValidatorScore.

Variable detect : string → string → bool.

(** The required capabilities the artifact satisfies. *)
Definition satisfied (a : AdaptedArtifact) (required : gset string) : gset string :=
  filter (λ c, detect c (artifact_body a) = true) required.

Lemma check_all_count (body : string) (req : list string) :
  (check_all detect body req).1
  = List.length (filter (λ c, detect c body = true) req).
Proof.
  induction req as [| c rest IH]; [reflexivity |].
  cbn [check_all]. destruct (check_all detect body rest) as [n vs]. cbn in IH.
  rewrite filter_cons. destruct (detect c body); cbn.
  - by rewrite IH.
  - rewrite decide_False by discriminate. done.
Qed.

Lemma check_all_violations (body : string) (req : list string) :
  (check_all detect body req).2
  = unmet <$> filter (λ c, detect c body ≠ true) req.
Proof.
  induction req as [| c rest IH]; [reflexivity |].
  cbn [check_all]. destruct (check_all detect body rest) as [n vs]. cbn in IH.
  rewrite filter_cons. destruct (detect c body); cbn.
  - rewrite decide_False by (intros H; by apply H). done.
  - rewrite decide_True by discriminate. by rewrite IH.
Qed.

Lemma size_filter_elements (P : string → Prop) `{!∀ c, Decision (P c)}
    (X : gset string) :
  size (filter P X) = List.length (filter P (elements X)).
Proof.
  unfold size, set_size. cbn. apply Permutation_length.
  apply NoDup_Permutation.
  - apply NoDup_elements.
  - apply NoDup_filter, NoDup_elements.
  - intros c. rewrite elem_of_elements, elem_of_filter, list_elem_of_filter,
      elem_of_elements. done.
Qed.

Lemma filter_all {A : Type} (P : A → Prop) `{!∀ x, Decision (P x)} (l : list A) :
  (∀ x, x ∈ l → P x) → filter P l = l.
Proof.
  induction l as [| x l IH]; intros Hall; [reflexivity |].
  rewrite filter_cons_True by (apply Hall; left).
  f_equal. apply IH. intros y Hy. apply Hall. by right.
Qed.

Lemma Qc_of_nat_inj (n m : nat) : Qc_of_nat n = Qc_of_nat m → n = m.
Proof.
  unfold Qc_of_nat, Qc_of_Z. intros H.
  apply (f_equal this) in H. cbn in H. injection H as H. lia.
Qed.

Lemma Qc_ratio_one (n m : nat) :
  m ≠ 0%nat → (Qc_of_nat n / Qc_of_nat m = 1)%Qc ↔ n = m.
Proof.
  intros Hm.
  assert (Qc_of_nat m ≠ 0%Qc) as Hm0.
  { intros H. apply Hm. apply (f_equal this) in H. cbn in H.
    injection H as H. lia. }
  split.
  - intros H. apply Qc_of_nat_inj.
    rewrite <- (Qcmult_1_l (Qc_of_nat m)), <- H.
    unfold Qcdiv. rewrite <- Qcmult_assoc, (Qcmult_comm (/ _)), Qcmult_inv_r by done.
    by rewrite Qcmult_1_r.
  - intros ->. unfold Qcdiv. by apply Qcmult_inv_r.
Qed.

(** C3. For every call of [validate] with a non-empty required set, the
    score is the number of satisfied required capabilities divided by the
    number of required capabilities, and the report passes exactly when
    the score is one. *)
Theorem validate_score (a : AdaptedArtifact) (required : gset string) :
  required ≠ ∅ →
  score (validate detect a required)
  = (Qc_of_nat (size (satisfied a required)) / Qc_of_nat (size required))%Qc
  ∧ (passed (validate detect a required) = true
     ↔ score (validate detect a required) = 1%Qc).
Proof.
  intros Hne. unfold validate.
  pose proof (check_all_count (artifact_body a) (elements required)) as Hcount.
  destruct (check_all detect _ _) as [n vs]. cbn in Hcount. cbn [score passed].
  split; [| apply bool_decide_eq_true].
  destruct (elements required) as [| c rest] eqn:Hel.
  - by apply elements_empty_iff, leibniz_equiv in Hel.
  - unfold satisfied. rewrite size_filter_elements, Hel, <- Hcount.
    unfold size, set_size. cbn. by rewrite Hel.
Qed.

(** A report passes exactly when every required capability is detected,
    that is, when it lists no violation. *)
Lemma validate_passed_all (a : AdaptedArtifact) (required : gset string) :
  passed (validate detect a required) = true
  ↔ ∀ c, c ∈ required → detect c (artifact_body a) = true.
Proof.
  unfold validate.
  pose proof (check_all_count (artifact_body a) (elements required)) as Hcount.
  destruct (check_all detect _ _) as [n vs]. cbn in Hcount. cbn [passed].
  rewrite bool_decide_eq_true.
  destruct (elements required) as [| c0 rest] eqn:Hel.
  - split; [| done]. intros _ c Hc.
    apply elem_of_elements in Hc. rewrite Hel in Hc. by apply elem_of_nil in Hc.
  - rewrite Qc_ratio_one by done. rewrite Hcount, <- Hel.
    split.
    + intros Hlen c Hc. apply elem_of_elements in Hc.
      destruct (detect c (artifact_body a)) eqn:Hd; [done |].
      pose proof (length_filter_lt (λ c, detect c (artifact_body a) = true)
                    (elements required) c Hc) as Hlt.
      rewrite Hlen in Hlt. exfalso. apply (Nat.lt_irrefl _ (Hlt ltac:(congruence))).
    + intros Hall. f_equal. apply filter_all.
      intros c Hc. by apply Hall, elem_of_elements.
Qed.

End ValidatorScore.

Definition demo_detect (c body : string) : bool :=
  match c with
  | "pagination" => bool_decide (is_Some (String.index 0 "Math.min(" body))
  | "auth-required" => bool_decide (is_Some (String.index 0 "authenticateToken" body))
  | _ => false
  end.

Definition demo_artifact : AdaptedArtifact := {|
  source_pattern_id := "get-users-auth";
  artifact_body := "router.get('/products', authenticateToken, handler)";
  substitutions := [("resource", "products")];
  capabilities_inherited := {["auth-required"; "pagination"]}
|}.

Lemma validate_score_witness :
  score (validate demo_detect demo_artifact {["auth-required"; "pagination"]})
  = (Qc_of_nat (size (satisfied demo_detect demo_artifact
                        {["auth-required"; "pagination"]}))
     / Qc_of_nat (size ({["auth-required"; "pagination"]} : gset string)))%Qc
  ∧ (passed (validate demo_detect demo_artifact {["auth-required"; "pagination"]}) = true
     ↔ score (validate demo_detect demo_artifact {["auth-required"; "pagination"]})
       = 1%Qc).
Proof.
  apply (validate_score demo_detect demo_artifact {["auth-required"; "pagination"]}).
  intros Hempty. apply (f_equal size) in Hempty. vm_compute in Hempty. discriminate.
Defined.

(** ** Ranking *)

Section Ranking.

Variable same_crud_family : Operation → Operation → bool.

Lemma Qc_trichotomy (x y : Qc) : (x < y)%Qc ∨ x = y ∨ (y < x)%Qc.
Proof.
  destruct (Qclt_le_dec x y) as [? | Hle]; [by left |].
  destruct (Qcle_lt_or_eq _ _ Hle) as [? | ?]; auto.
Qed.

Global Instance precedes_total : Total precedes.
Proof.
  intros a b. unfold precedes.
  destruct (Qc_trichotomy (cand_score a) (cand_score b)) as [? | [Heq | ?]];
    [by right; left | | by left; left].
  assert ((exact_rank a < exact_rank b)%nat
          ∨ (exact_rank b < exact_rank a)%nat
          ∨ exact_rank a = exact_rank b
            ∧ ((missing_count a < missing_count b)%nat
               ∨ (missing_count b < missing_count a)%nat
               ∨ missing_count a = missing_count b
                 ∧ ((cand_index a ≤ cand_index b)%nat
                    ∨ (cand_index b ≤ cand_index a)%nat))) as Hnat by lia.
  destruct Hnat as [? | [? | (? & [? | [? | (? & [? | ?])]])]].
  - left; right; auto.
  - right; right; auto.
  - left; right; auto.
  - right; right; split; [done |]. right. split; [done |]. by left.
  - left; right; auto 10.
  - right; right; split; [done |]. right. split; [done |]. right. by split.
Qed.

Global Instance precedes_trans : Transitive precedes.
Proof.
  intros a b c [Hab | (Eab & Hab)] [Hbc | (Ebc & Hbc)].
  - left. by apply Qclt_trans with (cand_score b).
  - left. by rewrite <- Ebc.
  - left. by rewrite Eab.
  - right. split; [congruence | lia].
Qed.

(** Two candidates that precede each other have the same catalog
    position. *)
Lemma precedes_antisym_index (a b : Candidate) :
  precedes a b → precedes b a → cand_index a = cand_index b.
Proof.
  intros [Hab | (Eab & Hab)] [Hba | (Eba & Hba)].
  - destruct (Qclt_not_eq _ _ (Qclt_trans _ _ _ Hab Hba)). done.
  - rewrite Eba in Hab. by destruct (Qclt_not_eq _ _ Hab).
  - rewrite Eab in Hba. by destruct (Qclt_not_eq _ _ Hba).
  - lia.
Qed.

Lemma candidates_lookup (q : RequestQuery) (d : string) (cat : list PatternRecord)
    (c : Candidate) :
  c ∈ candidates same_crud_family q d cat →
  ∃ p, cat !! cand_index c = Some p
       ∧ c = candidate same_crud_family q (cand_index c) p.
Proof.
  unfold candidates. rewrite list_elem_of_filter, elem_of_lookup_imap.
  intros (_ & i & p & -> & Hp). exists p. by split.
Qed.

Lemma precedes_antisym_candidates (q : RequestQuery) (d : string)
    (cat : list PatternRecord) (a b : Candidate) :
  a ∈ candidates same_crud_family q d cat →
  b ∈ candidates same_crud_family q d cat →
  precedes a b → precedes b a → a = b.
Proof.
  intros Ha Hb Hab Hba.
  pose proof (precedes_antisym_index a b Hab Hba) as Hidx.
  apply candidates_lookup in Ha as (pa & Hpa & ->).
  apply candidates_lookup in Hb as (pb & Hpb & ->).
  cbn in Hidx. cbn [cand_index candidate] in Hpa, Hpb.
  rewrite Hidx in Hpa. congruence.
Qed.

(** C8. Ranking is deterministic and totally ordered: [rank] lists the
    results of the eligible candidates, sorted by score descending, then
    exact operation match, then fewer missing capabilities, then catalog
    position; any two candidates are comparable, two distinct ranked
    candidates never tie, the sorted order is the only one, and equal
    inputs give the identical sequence. *)
Theorem rank_deterministic_total_order (q : RequestQuery) (d : string)
    (cat : list PatternRecord) :
  let ranked := rank_candidates same_crud_family q d cat in
  rank same_crud_family q d cat = cand_result <$> ranked
  ∧ ranked ≡ₚ candidates same_crud_family q d cat
  ∧ StronglySorted precedes ranked
  ∧ (∀ a b, precedes a b ∨ precedes b a)
  ∧ (∀ a b, a ∈ ranked → b ∈ ranked → precedes a b → precedes b a → a = b)
  ∧ (∀ l, l ≡ₚ candidates same_crud_family q d cat → Sorted precedes l →
          l = ranked)
  ∧ (∀ q' d' cat', q' = q → d' = d → cat' = cat →
       rank same_crud_family q' d' cat' = rank same_crud_family q d cat).
Proof.
  cbv zeta. unfold rank_candidates.
  pose proof (merge_sort_Permutation precedes
                (candidates same_crud_family q d cat)) as Hperm.
  pose proof (StronglySorted_merge_sort precedes
                (candidates same_crud_family q d cat)) as Hsorted.
  repeat split; try done.
  - apply precedes_total.
  - intros a b Ha Hb. rewrite Hperm in Ha, Hb.
    by apply (precedes_antisym_candidates q d cat).
  - intros l Hl Hs. apply (StronglySorted_unique_strong precedes).
    + intros a b Ha Hb. rewrite Hl in Ha. rewrite Hperm in Hb.
      by apply (precedes_antisym_candidates q d cat).
    + apply Sorted_StronglySorted; [apply precedes_trans | done].
    + done.
    + by rewrite Hl, Hperm.
  - by intros q' d' cat' -> -> ->.
Qed.

End Ranking.

(** ** The orchestrator *)

Section OrchestratorSafety.

Variable same_crud_family : Operation → Operation → bool.
Variable detect : string → string → bool.
Variable extract : string → option RequestQuery.
Variable adapt : PatternRecord → RequestQuery → nat → AdaptError + AdaptedArtifact.
Variable catalog : list PatternRecord.
Variable target_domain : string.
Variable max_repair_attempts : nat.

Local Abbreviation step :=
  (step same_crud_family detect extract adapt catalog target_domain max_repair_attempts).
Local Abbreviation steps :=
  (steps same_crud_family detect extract adapt catalog target_domain max_repair_attempts).
Local Abbreviation orchestrate :=
  (orchestrate same_crud_family detect extract adapt catalog target_domain
     max_repair_attempts).

Lemma best_of_spec (l : list Attempt) :
  match best_of l with
  | Some b =>
      b ∈ l ∧ ∀ a, a ∈ l → (score (att_report a) ≤ score (att_report b))%Qc
  | None => l = []
  end.
Proof.
  induction l as [| a rest IH]; [reflexivity |]. cbn [best_of].
  destruct (best_of rest) as [b |].
  - destruct IH as [Hb Hmax]. case_decide as Hlt.
    + split; [by right |]. intros x [-> | Hx]%elem_of_cons.
      * by apply Qclt_le_weak.
      * by apply Hmax.
    + apply Qcnot_lt_le in Hlt. split; [by left |].
      intros x [-> | Hx]%elem_of_cons; [apply Qcle_refl |].
      apply Qcle_trans with (score (att_report b)); [by apply Hmax | done].
  - subst rest. split; [by left |].
    intros x [-> | Hx]%elem_of_cons; [apply Qcle_refl | by apply elem_of_nil in Hx].
Qed.

(** The request query a non-terminal state works on. *)
Definition query_of (c : Control) : option RequestQuery :=
  match c with
  | Matching q | Adapting q _ _ _ | Validating q _ _ _ _ | Repairing q _ _ _ => Some q
  | _ => None
  end.

(** A validated attempt of the run on [prompt]. *)
Definition validated (prompt : string) (a : AdaptedArtifact) (r : ValidationReport)
    : Prop :=
  ∃ q, extract prompt = Some q ∧ r = validate detect a (required_capabilities q).

(** What holds of every state of a run on [prompt]. *)
Definition run_invariant (prompt : string) (s : State) : Prop :=
  (∀ q, query_of (control s) = Some q → extract prompt = Some q)
  ∧ Forall (λ att, passed (att_report att) = false
                   ∧ validated prompt (att_artifact att) (att_report att))
      (failed s)
  ∧ match control s with
    | Accepted a r => passed r = true ∧ validated prompt a r
    | Exhausted best e => best = best_of (failed s)
    | _ => True
    end.

Lemma run_invariant_initial (prompt : string) :
  run_invariant prompt (initial prompt).
Proof. repeat split; [discriminate | constructor]. Qed.

Lemma run_invariant_step (prompt : string) (s : State) :
  (∀ p, control s = Extracting p → p = prompt) →
  run_invariant prompt s → run_invariant prompt (step s).
Proof.
  intros Hprompt (Hq & Hfailed & Hctl). unfold Engine.step.
  destruct (control s) as [p | q | q cur rest k | q cur rest k a | q cur rest k
                          | a r | best e | e] eqn:Hc; cbn in Hq.
  - rewrite (Hprompt p eq_refl).
    destruct (extract prompt) as [q |] eqn:Hex; repeat split; cbn; try done.
    by intros ? [= <-].
  - destruct (rank_candidates _ _ _ _); repeat split; cbn; done.
  - destruct (adapt _ _ _); repeat split; cbn; done.
  - destruct (passed (validate detect a (required_capabilities q))) eqn:Hp;
      repeat split; cbn; try done.
    + exists q. split; [by apply Hq | done].
    + apply Forall_app. split; [done |]. constructor; [| constructor].
      split; [done |]. exists q. split; [by apply Hq | done].
  - case_decide; [repeat split; cbn; done |].
    destruct rest; repeat split; cbn; done.
  - unfold run_invariant. by rewrite Hc.
  - unfold run_invariant. by rewrite Hc.
  - unfold run_invariant. by rewrite Hc.
Qed.

Lemma steps_succ (n : nat) (s : State) : steps (S n) s = step (steps n s).
Proof. revert s. induction n as [| n IH]; intros s; [done |]. cbn. by rewrite <- IH. Qed.

Lemma not_extracting_step (s : State) :
  (∀ p, control s ≠ Extracting p) → ∀ p, control (step s) ≠ Extracting p.
Proof.
  intros Hs p. unfold Engine.step.
  destruct (control s) eqn:Hc; [by destruct (Hs prompt) | ..];
    repeat case_match; cbn; rewrite ?Hc; done.
Qed.

Lemma extracting_only_initially (prompt : string) (n : nat) (p : string) :
  control (steps n (initial prompt)) = Extracting p → p = prompt.
Proof.
  destruct n as [| n]; [by intros [= <-] |].
  intros Hc. exfalso. revert p Hc.
  induction n as [| n IH].
  - cbn. unfold Engine.step. cbn. by destruct (extract prompt).
  - rewrite steps_succ. by apply not_extracting_step.
Qed.

Lemma run_invariant_steps (prompt : string) (n : nat) :
  run_invariant prompt (steps n (initial prompt)).
Proof.
  induction n as [| n IH]; [apply run_invariant_initial |].
  rewrite steps_succ. apply run_invariant_step; [| done].
  apply extracting_only_initially.
Qed.

(** An upper bound on the transitions left before a terminal state. *)
Definition budget (s : State) : nat :=
  let loop (rest : list Candidate) (k : nat) : nat :=
    (3 * ((max_repair_attempts - k) + S max_repair_attempts * List.length rest))%nat in
  match control s with
  | Extracting p =>
      run_fuel same_crud_family extract catalog target_domain max_repair_attempts p
  | Matching q =>
      (1 + 3 * S max_repair_attempts
           * List.length (rank_candidates same_crud_family q target_domain catalog))%nat
  | Adapting _ _ rest k => (loop rest k + 3)%nat
  | Validating _ _ rest k _ => (loop rest k + 2)%nat
  | Repairing _ _ rest k => (loop rest k + 1)%nat
  | Accepted _ _ | Exhausted _ _ | Rejected _ => 0%nat
  end.

Lemma terminal_step (s : State) : is_terminal s = true → step s = s.
Proof.
  unfold is_terminal, Engine.step. by destruct (control s).
Qed.

Lemma budget_step (s : State) :
  is_terminal s = false → (budget (step s) < budget s)%nat.
Proof.
  unfold is_terminal, budget, Engine.step, run_fuel.
  destruct (control s) as [p | q | q cur rest k | q cur rest k a | q cur rest k
                          | a r | best e | e]; try discriminate; intros _.
  - destruct (extract p); cbn; lia.
  - destruct (rank_candidates _ _ _ _) as [| c rest]; cbn [control List.length]; nia.
  - destruct (adapt _ _ _); cbn; lia.
  - destruct (passed _); cbn; lia.
  - case_decide; [cbn; lia |].
    destruct rest as [| next rest']; cbn [control List.length]; nia.
Qed.

Lemma budget_zero_terminal (s : State) : budget s = 0%nat → is_terminal s = true.
Proof.
  unfold budget, is_terminal, run_fuel.
  destruct (control s); try done; try lia. destruct (extract prompt); lia.
Qed.

Lemma steps_terminal (n : nat) (s : State) :
  (budget s ≤ n)%nat → is_terminal (steps n s) = true.
Proof.
  revert s. induction n as [| n IH]; intros s Hs; cbn [Engine.steps].
  - apply budget_zero_terminal. lia.
  - apply IH. destruct (is_terminal s) eqn:Ht.
    + rewrite terminal_step by done.
      unfold is_terminal in Ht. unfold budget. destruct (control s); try done; lia.
    + pose proof (budget_step s Ht). lia.
Qed.

Lemma steps_plus (m k : nat) (s : State) : steps (m + k) s = steps k (steps m s).
Proof. revert s. induction m as [| m IH]; intros s; [done |]. cbn. apply IH. Qed.

Lemma steps_of_terminal (n : nat) (s : State) :
  is_terminal s = true → steps n s = s.
Proof.
  intros Ht. induction n as [| n IH]; [done |].
  cbn [Engine.steps]. by rewrite terminal_step.
Qed.

(** Once terminal, a run stays where it is. *)
Lemma steps_stay (m n : nat) (s : State) :
  (m ≤ n)%nat → is_terminal (steps m s) = true → steps n s = steps m s.
Proof.
  intros Hle Ht. replace n with (m + (n - m))%nat by lia.
  rewrite steps_plus. by apply steps_of_terminal.
Qed.

(** No transition forgets a failed attempt. *)
Lemma failed_step (s : State) : failed s `prefix_of` failed (step s).
Proof.
  unfold Engine.step.
  destruct (control s) as [p | q | q cur rest k | q cur rest k a | q cur rest k
                          | a r | best e | e]; cbn; try done.
  - by destruct (extract p).
  - by destruct (rank_candidates _ _ _ _).
  - by destruct (adapt _ _ _).
  - destruct (passed _); cbn; [done |]. by apply prefix_app_r.
  - case_decide; [done |]. by destruct rest.
Qed.

Lemma failed_steps (m n : nat) (s : State) :
  (m ≤ n)%nat → failed (steps m s) `prefix_of` failed (steps n s).
Proof.
  intros Hle. replace n with (m + (n - m))%nat by lia. rewrite steps_plus.
  generalize (steps m s). intros s'.
  induction (n - m)%nat as [| k IH]; [done |].
  rewrite steps_succ. etrans; [exact IH | apply failed_step].
Qed.

(** An artifact under validation either passes, and the run stops
    there accepting it, or it is recorded among the failed attempts. *)
Lemma validating_step (s : State) (q : RequestQuery) (cur : Candidate)
    (rest : list Candidate) (k : nat) (a : AdaptedArtifact) :
  control s = Validating q cur rest k a →
  let r := validate detect a (required_capabilities q) in
  (passed r = true ∧ control (step s) = Accepted a r)
  ∨ (passed r = false
     ∧ failed (step s) = (failed s ++ [{| att_artifact := a; att_report := r |}])%list).
Proof.
  intros Hc. cbv zeta. unfold Engine.step. rewrite Hc.
  destruct (passed _); cbn; auto.
Qed.

(** C2. For every run of the orchestrator: the run ends in a terminal
    state; a state [Accepted] always carries a passing report of the
    artifact it returns; when the ranked list is exhausted the next state
    is [Exhausted]; [Exhausted] returns the best-scoring of the attempts
    made, each of them a failed validation with its own report; and the
    attempts made are all the artifacts the run validated: each artifact
    that was under validation before the run ended [Exhausted] failed,
    is among the attempts with its report, and scores no more than the
    artifact returned. *)
Theorem orchestrator_never_accepts_failure (prompt : string) :
  is_terminal (orchestrate prompt) = true
  ∧ (∀ n a r,
       control (steps n (initial prompt)) = Accepted a r →
       passed r = true ∧ validated prompt a r)
  ∧ (∀ n q cur k,
       control (steps n (initial prompt)) = Repairing q cur [] k →
       ¬ (k < max_repair_attempts)%nat →
       control (steps (S n) (initial prompt))
       = Exhausted (best_of (failed (steps n (initial prompt))))
                   (last_error (steps n (initial prompt))))
  ∧ (∀ n best e,
       control (steps n (initial prompt)) = Exhausted best e →
       Forall (λ att, passed (att_report att) = false
                      ∧ validated prompt (att_artifact att) (att_report att))
         (failed (steps n (initial prompt)))
       ∧ match best with
         | Some b =>
             b ∈ failed (steps n (initial prompt))
             ∧ ∀ att, att ∈ failed (steps n (initial prompt)) →
                      (score (att_report att) ≤ score (att_report b))%Qc
         | None => failed (steps n (initial prompt)) = []
         end)
  ∧ (∀ m n q cur rest k a best e,
       control (steps m (initial prompt)) = Validating q cur rest k a →
       control (steps n (initial prompt)) = Exhausted best e →
       let r := validate detect a (required_capabilities q) in
       passed r = false
       ∧ {| att_artifact := a; att_report := r |} ∈ failed (steps n (initial prompt))
       ∧ ∃ b, best = Some b ∧ (score r ≤ score (att_report b))%Qc).
Proof.
  assert (∀ n best e,
            control (steps n (initial prompt)) = Exhausted best e →
            Forall (λ att, passed (att_report att) = false
                           ∧ validated prompt (att_artifact att) (att_report att))
              (failed (steps n (initial prompt)))
            ∧ match best with
              | Some b =>
                  b ∈ failed (steps n (initial prompt))
                  ∧ ∀ att, att ∈ failed (steps n (initial prompt)) →
                           (score (att_report att) ≤ score (att_report b))%Qc
              | None => failed (steps n (initial prompt)) = []
              end) as Hexhausted.
  { intros n best e Hc.
    destruct (run_invariant_steps prompt n) as (_ & Hfailed & Hctl).
    rewrite Hc in Hctl. subst best. split; [done |]. apply best_of_spec. }
  split; [| split; [| split; [| split]]].
  - apply steps_terminal. reflexivity.
  - intros n a r Hc.
    destruct (run_invariant_steps prompt n) as (_ & _ & Hctl).
    by rewrite Hc in Hctl.
  - intros n q cur k Hc Hk. rewrite steps_succ. unfold Engine.step.
    rewrite Hc. by rewrite decide_False.
  - exact Hexhausted.
  - intros m n q cur rest k a best e Hval Hex. cbv zeta.
    assert (m < n)%nat as Hlt.
    { destruct (decide (m < n)%nat) as [| Hge]; [done |]. exfalso.
      rewrite (steps_stay n m) in Hval by (lia || (unfold is_terminal; by rewrite Hex)).
      congruence. }
    assert (passed (validate detect a (required_capabilities q)) = false
            ∧ {| att_artifact := a;
                 att_report := validate detect a (required_capabilities q) |}
              ∈ failed (steps n (initial prompt))) as [Hfail Hin].
    { destruct (validating_step _ _ _ _ _ _ Hval) as [[_ Hacc] | [Hfail Hrec]].
      - exfalso. rewrite <- steps_succ in Hacc.
        rewrite (steps_stay (S m) n) in Hex
          by (lia || (unfold is_terminal; by rewrite Hacc)).
        congruence.
      - split; [done |]. rewrite <- steps_succ in Hrec.
        destruct (failed_steps (S m) n (initial prompt)) as [later ->]; [lia |].
        rewrite Hrec. apply elem_of_app. left. apply elem_of_app. right. by left. }
    split; [exact Hfail |]. split; [exact Hin |].
    destruct (Hexhausted n best e Hex) as [_ Hbest].
    destruct best as [b |].
    + exists b. split; [done |]. exact (proj2 Hbest _ Hin).
    + rewrite Hbest in Hin. by apply elem_of_nil in Hin.
Qed.

End OrchestratorSafety.

(** *** A run that exhausts its only candidate *)

Definition demo_family (a b : Operation) : bool :=
  match a, b with
  | OpReadOne, OpReadMany | OpReadMany, OpReadOne => true
  | _, _ => false
  end.

Definition demo_query : RequestQuery := {|
  resource := "products";
  query_operation := OpReadMany;
  required_capabilities := {["auth-required"; "pagination"]}
|}.

Definition demo_extract (prompt : string) : option RequestQuery := Some demo_query.

(** An adapter that only renames the resource in the route path. *)
Definition demo_adapt (p : PatternRecord) (q : RequestQuery) (attempt : nat)
    : AdaptError + AdaptedArtifact :=
  inr {| source_pattern_id := id p;
         artifact_body := "router.get('/" +:+ resource q +:+ "', authenticateToken, handler)";
         substitutions := [("resource", resource q)];
         capabilities_inherited := capabilities p |}.

Definition demo_catalog : list PatternRecord :=
  [ {| id := "get-user-by-id-auth";
       domain := "http-route";
       operation := OpReadOne;
       capabilities := {["auth-required"]};
       template := "router.get('/users/:id', authenticateToken, handler)";
       slots := [] |} ].

Definition demo_run : State :=
  orchestrate demo_family demo_detect demo_extract demo_adapt demo_catalog
    "http-route" default_max_repair_attempts
    "GET list of products with auth and pagination".

Example demo_run_exhausted :
  ∃ b, control demo_run = Exhausted (Some b) None
       ∧ passed (att_report b) = false
       ∧ List.length (failed demo_run) = 3%nat.
Proof. vm_compute. eexists. repeat split. Qed.

(** The artifact the demo adapter makes of the only candidate. *)
Definition demo_attempt : AdaptedArtifact :=
  {| source_pattern_id := "get-user-by-id-auth";
     artifact_body := "router.get('/products', authenticateToken, handler)";
     substitutions := [("resource", "products")];
     capabilities_inherited := {["auth-required"]} |}.

Lemma orchestrator_never_accepts_failure_witness :
  is_terminal demo_run = true
  ∧ (∃ b, control demo_run = Exhausted (Some b) None
          ∧ b ∈ failed demo_run
          ∧ passed (att_report b) = false
          ∧ ∀ att, att ∈ failed demo_run →
                   (score (att_report att) ≤ score (att_report b))%Qc)
  ∧ {| att_artifact := demo_attempt;
       att_report := validate demo_detect demo_attempt
                       (required_capabilities demo_query) |} ∈ failed demo_run.
Proof.
  destruct (orchestrator_never_accepts_failure demo_family demo_detect demo_extract
              demo_adapt demo_catalog "http-route" default_max_repair_attempts
              "GET list of products with auth and pagination")
    as (Hterminal & _ & _ & Hexhausted & Hrecorded).
  destruct demo_run_exhausted as (b & Hc & _ & _).
  split; [exact Hterminal |]. split.
  - destruct (Hexhausted _ (Some b) None Hc) as [Hall [Hb Hmax]].
    exists b. split; [exact Hc |]. split; [exact Hb |]. split; [| exact Hmax].
    exact (proj1 (proj1 (Forall_forall _ _) Hall b Hb)).
  - refine (proj1 (proj2 (Hrecorded 3%nat _ demo_query _ _ _ demo_attempt
                            (Some b) None _ Hc))).
    reflexivity.
Defined.

(** *** Ranking a small catalog *)

Definition route_pattern (name : string) (op : Operation) (caps : gset string)
    : PatternRecord :=
  {| id := name; domain := "http-route"; operation := op; capabilities := caps;
     template := ""; slots := [] |}.

Definition demo_routes : list PatternRecord :=
  [ route_pattern "get-user-by-id-auth" OpReadOne {["auth-required"]};
    route_pattern "delete-user-auth" OpDelete ∅;
    route_pattern "get-users-auth" OpReadMany {["auth-required"; "pagination"]};
    route_pattern "get-users-public" OpReadMany {["pagination"]};
    route_pattern "get-users-auth-copy" OpReadMany {["auth-required"; "pagination"]} ].

Example demo_ranking :
  pattern_id <$> rank demo_family demo_query "http-route" demo_routes
  = ["get-users-auth"; "get-users-auth-copy"; "get-users-public"; "get-user-by-id-auth"].
Proof. vm_compute. reflexivity. Qed.

Lemma rank_deterministic_total_order_witness :
  StronglySorted precedes (rank_candidates demo_family demo_query "http-route" demo_routes)
  ∧ rank demo_family demo_query "http-route" demo_routes
    = cand_result <$> rank_candidates demo_family demo_query "http-route" demo_routes.
Proof.
  destruct (rank_deterministic_total_order demo_family demo_query "http-route" demo_routes)
    as (Hrank & _ & Hsorted & _).
  split; [exact Hsorted | exact Hrank].
Defined.

(** * Further properties of the patterns *)

(** ** GET /users: what a request gets back *)

(** Answer of the next SELECT, kept as an equation. *)
Ltac run_select H rows :=
  cbn [run]; rewrite db_exec_select by reflexivity;
  match goal with
  | |- context [db_select ?D ?sql ?v ?st] =>
      destruct (db_select D sql v st) as [rows |] eqn:H
  end; cbn [run].

Section GetUsers.

Context (D : Database).

(** X1. A page and a limit given as decimal safe integers are honoured:
    a non-zero page is used as it is, and a non-zero limit is used up to
    the cap of 100. *)
Theorem requested_page_and_limit_honoured (req : Request) (p l : Z) :
  query_page req = JStr (string_of_Z p) → p ≠ 0 → is_safe_integer p →
  query_limit req = JStr (string_of_Z l) → l ≠ 0 → is_safe_integer l →
  effective_page req = JNum p ∧ effective_limit req = JNum (Z.min l 100).
Proof.
  intros Hp Hp0 _ Hl Hl0 _. unfold effective_page, effective_limit.
  rewrite Hp, Hl, !parseInt_string_of_Z. unfold js_or. cbn [truthy].
  destruct (Z.eqb_spec p 0), (Z.eqb_spec l 0); done.
Qed.


Lemma ceil_div_bounds (n l : Z) :
  0 < l → n ≤ - (- n / l) * l < n + l.
Proof.
  intros Hl. pose proof (Z.div_mod (- n) l ltac:(lia)).
  pose proof (Z.mod_pos_bound (- n) l Hl). nia.
Qed.

(** X3. In a 200 answer of GET /users with a positive limit [l], a page
    [p] and a count [n]: [totalPages] pages of [l] rows are just enough
    for [n] rows, [hasNext] tells whether rows remain after page [p], and
    [hasPrev] whether [p] is beyond the first page. *)
Theorem get_users_page_metadata (req : Request) (st : db_state D) (p l n : Z) :
  let pagination := field "pagination" (body (run_handler D get_users req st).1.1) in
  status (run_handler D get_users req st).1.1 = 200 →
  effective_page req = JNum p → effective_limit req = JNum l → 0 < l →
  field "total" pagination = JNum n →
  field "page" pagination = JNum p
  ∧ field "limit" pagination = JNum l
  ∧ (∃ tp, field "totalPages" pagination = JNum tp ∧ n ≤ tp * l < n + l)
  ∧ field "hasNext" pagination = JBool (p * l <? n)
  ∧ field "hasPrev" pagination = JBool (1 <? p).
Proof.
  cbv zeta. rewrite run_handler_response. cbn [h_try h_catch get_users].
  run_select Hlist users; [| discriminate].
  run_select Hcount countRows; [| discriminate].
  destruct (get_prop "total" _) as [t |]; [| discriminate].
  cbn. intros _ Hp Hl Hpos Hn. rewrite Hp, Hl, Hn.
  pose proof (ceil_div_bounds n l Hpos) as Hceil.
  unfold math_ceil_div, js_lt. cbn [to_number].
  destruct (Z.eqb_spec l 0); [lia |]. cbn [to_number].
  split; [done |]. split; [done |]. split; [by eexists |].
  split; [| done]. f_equal.
  destruct (Z.ltb_spec p (- (- n / l))), (Z.ltb_spec (p * l) n); try done; nia.
Qed.

End GetUsers.

Lemma requested_page_and_limit_honoured_witness :
  effective_page (request None JUndef (JStr "3") (JStr "250") JUndef) = JNum 3
  ∧ effective_limit (request None JUndef (JStr "3") (JStr "250") JUndef) = JNum 100.
Proof.
  apply (requested_page_and_limit_honoured
           (request None JUndef (JStr "3") (JStr "250") JUndef) 3 250);
    first [reflexivity | lia | split; by vm_compute].
Defined.

Lemma get_users_page_metadata_witness :
  field "hasNext"
    (field "pagination"
       (body (run_handler mem_db get_users
                (request None JUndef (JStr "1") (JStr "2") JUndef)
                [alice; alice; alice]).1.1))
  = JBool true.
Proof.
  refine (proj1 (proj2 (proj2 (proj2
    (get_users_page_metadata mem_db
       (request None JUndef (JStr "1") (JStr "2") JUndef)
       [alice; alice; alice] 1 2 3 _ _ _ _ _)))));
    first [reflexivity | lia].
Defined.

(** ** The five route handlers, run to the end *)

Lemma run_DbQuery {R : Type} (D : Database) (sql : string) (vals : list jsval)
    (k : list jsval → Prog R) (st : db_state D) :
  run D (DbQuery sql vals k) st
  = match db_exec D sql vals st with
    | (QRows rows, st') =>
        let '(r, tr, st'') := run D (k rows) st' in (r, (sql, vals) :: tr, st'')
    | (QReject, st') => (None, [(sql, vals)], st')
    end.
Proof. reflexivity. Qed.

(** Symbolic execution of a handler: case analysis on each test of the
    program and on each answer of the database, a SELECT leaving the
    state alone. *)
Ltac explore_step :=
  match goal with
  | |- context [@run ?R ?D ?p ?st] =>
      lazymatch p with
      | DbQuery ?sql ?v ?k =>
          rewrite (run_DbQuery D sql v k st);
          first
            [ rewrite (db_exec_select D sql v st) by reflexivity;
              let H := fresh "Hsel" in
              destruct (db_select D sql v st) as [[| ? ?] |] eqn:H
            | let H := fresh "Hmod" in
              destruct (db_exec D sql v st) as [[[| ? ?] |] ?] eqn:H ]
      | match build_update ?e ?u ?i with _ => _ end =>
          rewrite (build_update_eq e u i)
      | match ?x with _ => _ end =>
          let H := fresh "Hc" in destruct x eqn:H
      end
  end.

Ltac explore :=
  cbv zeta;
  repeat (explore_step;
          cbn [List.length Nat.eqb Nat.ltb Nat.leb negb andb orb]; cbv beta iota zeta).

Ltac unfold_handler :=
  rewrite ?run_handler_response, ?run_handler_trace, ?run_handler_state;
  cbn [h_try h_catch get_users get_user_by_id post_users put_user delete_user];
  rewrite ?build_update_eq.

Section RouteHandlers.

Context (D : Database).

Definition route_handlers : list Handler :=
  [get_users; get_user_by_id; post_users; put_user; delete_user].

Ltac each_handler Hin :=
  unfold route_handlers in Hin;
  repeat (apply elem_of_cons in Hin as [-> | Hin]);
  [.. | by apply elem_of_nil in Hin].

(** X4. A 400 answer of any route handler comes before any query: the
    request was refused on validation alone and the database was not
    consulted. *)
Theorem bad_request_issues_no_query (h : Handler) (req : Request) (st : db_state D) :
  h ∈ route_handlers →
  status (run_handler D h req st).1.1 = 400 →
  (run_handler D h req st).1.2 = [] ∧ (run_handler D h req st).2 = st.
Proof.
  intros Hin. each_handler Hin; unfold_handler; explore; cbn; by intros.
Qed.

(** Which of the two optional PUT fields are present. *)
Ltac split_fields :=
  repeat match goal with
    | |- context [update_text (truthy ?e) _] => destruct (truthy e) eqn:?
    | |- context [update_text _ (truthy ?e)] => destruct (truthy e) eqn:?
    | H : context [truthy ?e && _] |- _ => destruct (truthy e) eqn:?
    end.

(** X5. A 4xx answer of any route handler means nothing was written: no
    INSERT or UPDATE was issued and the state is the one the request
    found. *)
Theorem client_error_writes_nothing (h : Handler) (req : Request) (st : db_state D) :
  h ∈ route_handlers →
  400 ≤ status (run_handler D h req st).1.1 < 500 →
  no_mutation (run_handler D h req st).1.2 = true
  ∧ (run_handler D h req st).2 = st.
Proof.
  intros Hin. each_handler Hin; unfold_handler; explore;
    cbn [run fst snd default status h_catch];
    intros [? ?]; first [lia | by split].
Qed.

Definition mutations (tr : list Stmt) : list Stmt :=
  filter (λ s, is_mutation s.1 = true) tr.

(** X6. A success answer of a mutating route (201 for POST, 200 for PUT
    and DELETE) means exactly one INSERT or UPDATE was executed, as the
    last statement of the run, and the state is the one that statement
    produced. *)
Theorem success_runs_one_mutation (h : Handler) (ok : Z) (req : Request)
    (st : db_state D) :
  (h, ok) ∈ [(post_users, 201); (put_user, 200); (delete_user, 200)] →
  status (run_handler D h req st).1.1 = ok →
  ∃ m, last (run_handler D h req st).1.2 = Some m
       ∧ mutations (run_handler D h req st).1.2 = [m]
       ∧ (run_handler D h req st).2 = (db_exec D m.1 m.2 st).2.
Proof.
  intros Hin.
  repeat (apply elem_of_cons in Hin as [[= -> ->] | Hin]);
    [.. | by apply elem_of_nil in Hin]; unfold_handler; explore;
    cbn [run fst snd default status h_catch]; try discriminate; intros _;
    split_fields; try discriminate;
    (eexists; split; [reflexivity |]; split; [reflexivity |]);
    cbn [fst snd update_text] in *;
    match goal with H : db_exec _ _ _ _ = _ |- _ => by rewrite H end.
Qed.

(** The status codes each handler can answer with. *)
Definition handler_statuses : list (Handler * list Z) :=
  [ (get_users, [200; 500]);
    (get_user_by_id, [200; 400; 404; 500]);
    (post_users, [201; 400; 409; 500]);
    (put_user, [200; 400; 404; 409; 500]);
    (delete_user, [200; 400; 404; 500]) ].

Lemma handler_status_listed (h : Handler) (codes : list Z) (req : Request)
    (st : db_state D) :
  (h, codes) ∈ handler_statuses →
  status (run_handler D h req st).1.1 ∈ codes.
Proof.
  intros Hin. unfold handler_statuses in Hin.
  repeat (apply elem_of_cons in Hin as [[= -> ->] | Hin]);
    [.. | by apply elem_of_nil in Hin]; unfold_handler; explore;
    cbn [run fst snd default status h_catch];
    apply (bool_decide_unpack _); reflexivity.
Qed.

(** X7. Behind [authenticateToken], every route answers with one of its
    own status codes or with the middleware's 401 or 403, whatever the
    request, the verifier and the database. *)
Theorem route_status_codes (jwt_verify : string → option jsval) (h : Handler)
    (codes : list Z) (req : Request) (st : db_state D) :
  (h, codes) ∈ handler_statuses →
  status (protected_route jwt_verify D h req st).1.1 ∈ 401 :: 403 :: codes.
Proof.
  intros Hin. unfold protected_route, authenticateToken.
  destruct (negb _); [by left |].
  destruct (jwt_verify _); cbn [sent]; [| right; by left].
  do 2 right. by apply handler_status_listed.
Qed.

(** X8. Every statement of the three routes that take an id binds, as
    its last value, the number [parseInt] read from the path, which is
    not [NaN]: never the raw path text; for a path that spells a safe
    integer, that integer. *)
Theorem statements_bind_parsed_id (h : Handler) (req : Request) (st : db_state D)
    (s : Stmt) :
  h ∈ [get_user_by_id; put_user; delete_user] →
  s ∈ (run_handler D h req st).1.2 →
  last s.2 = Some (parseInt (param_id req))
  ∧ isNaN (parseInt (param_id req)) = false
  ∧ ∀ n, is_safe_integer n → param_id req = JStr (string_of_Z n) →
         last s.2 = Some (JNum n).
Proof.
  intros Hin Htrace.
  assert (last s.2 = Some (parseInt (param_id req))
          ∧ isNaN (parseInt (param_id req)) = false) as [Hlast Hnum].
  { destruct (parseInt_number (param_id req)) as [Hnan | [n Hn]].
    - exfalso. revert Htrace. repeat (apply elem_of_cons in Hin as [-> | Hin]);
        [.. | by apply elem_of_nil in Hin]; unfold_handler; rewrite Hnan;
        cbn; by intros ?%elem_of_nil.
    - rewrite Hn. split; [| reflexivity]. revert Htrace.
      repeat (apply elem_of_cons in Hin as [-> | Hin]);
        [.. | by apply elem_of_nil in Hin]; unfold_handler; rewrite Hn;
        cbn [isNaN to_number]; explore; cbn [run fst snd]; split_fields;
        intros Hs; repeat (apply elem_of_cons in Hs as [-> | Hs]);
        first [by apply elem_of_nil in Hs | reflexivity]. }
  repeat split; try done.
  intros n _ Hid. by rewrite Hlast, Hid, parseInt_string_of_Z.
Qed.


(** X10. A 201 answer of POST /users carries exactly the four fields
    [id], [email], [username] and [created_at] of the inserted row: the
    password is not echoed, whatever the database returns. *)
Theorem post_users_created_body (req : Request) (st : db_state D) :
  status (run_handler D post_users req st).1.1 = 201 →
  ∃ row rest,
    last (run_handler D post_users req st).1.2
    = Some (sql_insert_user,
            [field "email" (req_body req); field "username" (req_body req);
             field "password" (req_body req)])
    ∧ (db_exec D sql_insert_user
         [field "email" (req_body req); field "username" (req_body req);
          field "password" (req_body req)] st).1 = QRows (row :: rest)
    ∧ body (run_handler D post_users req st).1.1
      = JObj [("data",
               JObj [("id", field "id" row); ("email", field "email" row);
                     ("username", field "username" row);
                     ("created_at", field "created_at" row)])].
Proof.
  unfold_handler. explore;
    cbn [run fst snd default status h_catch lookup list_lookup] in *;
    try discriminate; intros _;
    repeat match goal with
      | H : get_prop _ _ = Some ?x |- _ => apply get_prop_field in H; subst x
      end;
    match goal with
    | H : db_exec _ _ _ _ = (QRows (?r :: ?rs), _) |- _ =>
        exists r, rs; rewrite H
    end; done.
Qed.

Lemma truthy_js_or_r (a b : jsval) : truthy b = true → truthy (js_or a b) = true.
Proof. unfold js_or. by destruct (truthy a) eqn:?. Qed.

(** X11. DELETE /users/:id is a soft delete: no statement it issues is a
    SQL DELETE, its only mutation is the UPDATE that sets [is_deleted],
    and its 200 answer always carries a [deleted_at] value. *)
Theorem delete_user_is_soft (req : Request) (st : db_state D) :
  Forall (λ s, starts_with "DELETE" (skip_space s.1) = false
               ∧ (is_mutation s.1 = true → s.1 = sql_soft_delete))
    (run_handler D delete_user req st).1.2
  ∧ (status (run_handler D delete_user req st).1.1 = 200 →
     truthy (field "deleted_at"
               (field "data" (body (run_handler D delete_user req st).1.1))) = true).
Proof.
  unfold_handler. explore; cbn [run fst snd default status h_catch body];
    (split; [repeat constructor; by intros [=] | try discriminate]);
    intros _; cbn; by apply truthy_js_or_r.
Qed.

(** X12. GET /users/:id with a numeric id issues the one lookup by that
    id and answers by its result: the first row with 200, 404 when there
    is none, the generic 500 when the query is rejected; it never
    writes. *)
Theorem get_user_by_id_outcomes (req : Request) (st : db_state D) (n : Z) :
  parseInt (param_id req) = JNum n →
  (run_handler D get_user_by_id req st).1.2 = [(sql_user_by_id, [JNum n])]
  ∧ (run_handler D get_user_by_id req st).2 = st
  ∧ (run_handler D get_user_by_id req st).1.1
    = match db_select D sql_user_by_id [JNum n] st with
      | QRows (row :: _) => {| status := 200; body := JObj [("data", row)] |}
      | QRows [] => user_not_found
      | QReject => h_catch get_user_by_id
      end.
Proof.
  intros Hn. unfold_handler. rewrite Hn. cbn [isNaN to_number].
  explore; by rewrite ?Hsel.
Qed.

End RouteHandlers.

(** *** The handlers on the in-memory table *)

Definition new_user_body : jsval :=
  JObj [("email", JStr "carol@example.com"); ("username", JStr "carol");
        ("password", JStr "correct horse")].

Lemma bad_request_issues_no_query_witness :
  (run_handler mem_db delete_user
     (request None (JStr "abc") JUndef JUndef JUndef) [alice]).1.2 = []
  ∧ (run_handler mem_db delete_user
       (request None (JStr "abc") JUndef JUndef JUndef) [alice]).2 = [alice].
Proof.
  apply (bad_request_issues_no_query mem_db delete_user
           (request None (JStr "abc") JUndef JUndef JUndef) [alice]).
  - do 4 right; left.
  - reflexivity.
Defined.

Lemma client_error_writes_nothing_witness :
  no_mutation (run_handler mem_db put_user
                 (request None (JStr "7") JUndef JUndef
                    (JObj [("username", JStr "zed")])) [alice]).1.2 = true
  ∧ (run_handler mem_db put_user
       (request None (JStr "7") JUndef JUndef
          (JObj [("username", JStr "zed")])) [alice]).2 = [alice].
Proof.
  apply (client_error_writes_nothing mem_db put_user
           (request None (JStr "7") JUndef JUndef (JObj [("username", JStr "zed")]))
           [alice]).
  - do 3 right; left.
  - vm_compute. split; [discriminate | reflexivity].
Defined.

Lemma success_runs_one_mutation_witness :
  ∃ m, last (run_handler mem_db post_users
               (request None JUndef JUndef JUndef new_user_body) [alice]).1.2 = Some m
       ∧ mutations (run_handler mem_db post_users
                      (request None JUndef JUndef JUndef new_user_body) [alice]).1.2
         = [m]
       ∧ (run_handler mem_db post_users
            (request None JUndef JUndef JUndef new_user_body) [alice]).2
         = (db_exec mem_db m.1 m.2 [alice]).2.
Proof.
  apply (success_runs_one_mutation mem_db post_users 201
           (request None JUndef JUndef JUndef new_user_body) [alice]).
  - left.
  - reflexivity.
Defined.

Lemma route_status_codes_witness :
  status (protected_route demo_verify mem_db get_user_by_id
            (request (Some "Bearer good") (JStr "2") JUndef JUndef JUndef)
            [alice; bob]).1.1
  ∈ [401; 403; 200; 400; 404; 500].
Proof.
  apply (route_status_codes mem_db demo_verify get_user_by_id [200; 400; 404; 500]).
  right; left.
Defined.

Lemma statements_bind_parsed_id_witness :
  last (sql_user_by_id, [JNum 2]).2 = Some (parseInt (JStr "2abc"))
  ∧ isNaN (parseInt (JStr "2abc")) = false.
Proof.
  destruct (statements_bind_parsed_id mem_db get_user_by_id
              (request None (JStr "2abc") JUndef JUndef JUndef) [alice; bob]
              (sql_user_by_id, [JNum 2])) as (Hlast & Hnum & _).
  - left.
  - vm_compute. left.
  - split; assumption.
Defined.


Lemma post_users_created_body_witness :
  ∃ row rest,
    last (run_handler mem_db post_users
            (request None JUndef JUndef JUndef new_user_body) [alice]).1.2
    = Some (sql_insert_user,
            [JStr "carol@example.com"; JStr "carol"; JStr "correct horse"])
    ∧ (db_exec mem_db sql_insert_user
         [JStr "carol@example.com"; JStr "carol"; JStr "correct horse"] [alice]).1
      = QRows (row :: rest)
    ∧ body (run_handler mem_db post_users
              (request None JUndef JUndef JUndef new_user_body) [alice]).1.1
      = JObj [("data",
               JObj [("id", field "id" row); ("email", field "email" row);
                     ("username", field "username" row);
                     ("created_at", field "created_at" row)])].
Proof.
  apply (post_users_created_body mem_db
           (request None JUndef JUndef JUndef new_user_body) [alice]).
  reflexivity.
Defined.

Lemma get_user_by_id_outcomes_witness :
  (run_handler mem_db get_user_by_id
     (request None (JStr "2") JUndef JUndef JUndef) [alice; bob]).1.1
  = {| status := 200; body := JObj [("data", row_obj bob)] |}.
Proof.
  exact (proj2 (proj2 (get_user_by_id_outcomes mem_db
                         (request None (JStr "2") JUndef JUndef JUndef)
                         [alice; bob] 2 eq_refl))).
Defined.

(** ** The Authorization header *)

Section AuthorizationHeader.

Fixpoint no_space (s : string) : bool :=
  match s with
  | EmptyString => true
  | String c rest => negb (Ascii.eqb c " ") && no_space rest
  end.

Lemma append_cons (c : ascii) (a b : string) :
  String c a +:+ b = String c (a +:+ b).
Proof. reflexivity. Qed.

Lemma append_nil_l (b : string) : "" +:+ b = b.
Proof. reflexivity. Qed.

Lemma append_nil_r (s : string) : s +:+ "" = s.
Proof.
  induction s as [| c s IH]; [done |]. by rewrite append_cons, IH.
Qed.

Lemma append_assoc (a b c : string) : (a +:+ b) +:+ c = a +:+ (b +:+ c).
Proof.
  induction a as [| x a IH]; [done |]. by rewrite !append_cons, IH.
Qed.

Lemma split_space_aux_word (cur w rest : string) :
  no_space w = true →
  split_space_aux cur (w +:+ String " " rest)
  = (cur +:+ w) :: split_space_aux "" rest.
Proof.
  revert cur. induction w as [| c w IH]; intros cur Hw.
  - rewrite append_nil_l, append_nil_r. reflexivity.
  - cbn [no_space] in Hw. apply andb_true_iff in Hw as [Hc Hw].
    apply negb_true_iff in Hc. rewrite append_cons. cbn [split_space_aux].
    rewrite Hc, IH by done. by rewrite append_assoc.
Qed.

Lemma split_space_aux_last (cur w : string) :
  no_space w = true → split_space_aux cur w = [cur +:+ w].
Proof.
  revert cur. induction w as [| c w IH]; intros cur Hw.
  - by rewrite append_nil_r.
  - cbn [no_space] in Hw. apply andb_true_iff in Hw as [Hc Hw].
    apply negb_true_iff in Hc. cbn [split_space_aux].
    rewrite Hc, IH by done. by rewrite append_assoc.
Qed.

Lemma bearer_token_two_words (scheme token : string) :
  no_space scheme = true → no_space token = true →
  bearer_token (Some (scheme +:+ " " +:+ token))
  = JStr token.
Proof.
  intros Hs Ht. unfold bearer_token, js_and, split_space.
  assert (truthy (JStr (scheme +:+ " " +:+ token)) = true) as ->.
  { cbn. by destruct scheme. }
  change (" " +:+ token) with (String " " token).
  rewrite split_space_aux_word by done. by rewrite split_space_aux_last.
Qed.

Variable jwt_verify : string → option jsval.

(** X13. The middleware reads the second word of the header and nothing
    else: for a header made of a scheme word, one space and a token, the
    outcome is that of verifying the token, whatever the scheme word is;
    and a request with no header, or with a header without a space, is
    answered 401 whatever the verifier would say. *)
Theorem authenticateToken_reads_second_word (req : Request) :
  (∀ scheme token,
     no_space scheme = true → no_space token = true → token ≠ "" →
     authorization req = Some (scheme +:+ " " +:+ token) →
     req_user (authenticateToken jwt_verify req false) = jwt_verify token
     ∧ (next_called (authenticateToken jwt_verify req false) = true
        ↔ is_Some (jwt_verify token))
     ∧ (sent (authenticateToken jwt_verify req false) = None
        ↔ is_Some (jwt_verify token)))
  ∧ (∀ header,
       no_space header = true →
       authorization req = None ∨ authorization req = Some header →
       authenticateToken jwt_verify req false
       = {| sent := Some missing_token; req_user := None; next_called := false |}).
Proof.
  split.
  - intros scheme token Hs Ht Hne Hauth. unfold authenticateToken.
    rewrite Hauth, bearer_token_two_words by done. cbn [truthy to_string].
    assert (String.eqb token "" = false) as -> by by apply String.eqb_neq.
    cbn [negb]. destruct (jwt_verify token) as [u |]; cbn.
    + repeat split; eauto.
    + repeat split; try done; by intros [? ?].
  - intros header Hh [Hauth | Hauth]; unfold authenticateToken; rewrite Hauth.
    + reflexivity.
    + unfold bearer_token, js_and, split_space.
      rewrite split_space_aux_last by done. cbn [app].
      by destruct header.
Qed.

Context (D : Database).

(** X14. Behind the middleware no handler runs unauthenticated: when the
    token is missing or fails verification the route answers 401 or 403,
    issues no statement and leaves the state alone; when verification
    succeeds the route is the handler. *)
Theorem protected_route_gate (h : Handler) (req : Request) (st : db_state D) :
  let token := bearer_token (authorization req) in
  (truthy token = false →
   protected_route jwt_verify D h req st = (missing_token, [], st))
  ∧ (truthy token = true → jwt_verify (to_string token) = None →
     protected_route jwt_verify D h req st = (invalid_token, [], st))
  ∧ (truthy token = true → is_Some (jwt_verify (to_string token)) →
     protected_route jwt_verify D h req st = run_handler D h req st).
Proof.
  cbv zeta. unfold protected_route, authenticateToken.
  destruct (truthy _); cbn [negb].
  - split; [done |]. split.
    + by intros _ ->.
    + intros _ [u ->]. reflexivity.
  - split; [done |]. split; done.
Qed.

End AuthorizationHeader.

Lemma authenticateToken_reads_second_word_witness :
  req_user (authenticateToken demo_verify
              (request (Some "Basic good") JUndef JUndef JUndef JUndef) false)
  = demo_verify "good".
Proof.
  refine (proj1 (proj1 (authenticateToken_reads_second_word demo_verify
            (request (Some "Basic good") JUndef JUndef JUndef JUndef))
            "Basic" "good" _ _ _ _)); first [reflexivity | discriminate].
Defined.

Lemma protected_route_gate_witness :
  protected_route demo_verify mem_db delete_user
    (request (Some "Bearer bad") (JStr "1") JUndef JUndef JUndef) [alice]
  = (invalid_token, [], [alice]).
Proof.
  refine (proj1 (proj2 (protected_route_gate demo_verify mem_db delete_user
            (request (Some "Bearer bad") (JStr "1") JUndef JUndef JUndef) [alice]))
            _ _); reflexivity.
Defined.

(** ** The email pattern *)

Section EmailPattern.

(** The strings [/^[^\s@]+@[^\s@]+\.[^\s@]+$/] denotes: a local part, an
    at sign, and a domain split by a dot, the three parts non-empty and
    free of white space and of at signs. *)
Definition email_shape (s : string) : Prop :=
  ∃ a b c, s = a +:+ "@" +:+ b +:+ "." +:+ c
           ∧ a ≠ "" ∧ b ≠ "" ∧ c ≠ ""
           ∧ all_ok a = true ∧ all_ok b = true ∧ all_ok c = true.

Lemma utf8_space3_second_ascii (b1 b2 b3 : nat) :
  (b2 < 128)%nat → utf8_space3 b1 b2 b3 = false.
Proof.
  intros H. unfold utf8_space3.
  assert ((b2 =? 154)%nat = false) as -> by (apply Nat.eqb_neq; lia).
  assert ((b2 =? 128)%nat = false) as -> by (apply Nat.eqb_neq; lia).
  assert ((b2 =? 129)%nat = false) as -> by (apply Nat.eqb_neq; lia).
  assert ((b2 =? 187)%nat = false) as -> by (apply Nat.eqb_neq; lia).
  by rewrite !andb_false_r.
Qed.

Lemma utf8_space3_third_ascii (b1 b2 b3 : nat) :
  (b3 < 128)%nat → utf8_space3 b1 b2 b3 = false.
Proof.
  intros H. unfold utf8_space3.
  assert ((b3 =? 128)%nat = false) as -> by (apply Nat.eqb_neq; lia).
  assert ((128 <=? b3)%nat = false) as -> by (apply Nat.leb_gt; lia).
  assert ((b3 =? 168)%nat = false) as -> by (apply Nat.eqb_neq; lia).
  assert ((b3 =? 169)%nat = false) as -> by (apply Nat.eqb_neq; lia).
  assert ((b3 =? 175)%nat = false) as -> by (apply Nat.eqb_neq; lia).
  assert ((b3 =? 159)%nat = false) as -> by (apply Nat.eqb_neq; lia).
  assert ((b3 =? 191)%nat = false) as -> by (apply Nat.eqb_neq; lia).
  cbn [andb orb]. by rewrite !andb_false_r.
Qed.

(** A white-space character does not reach across an ASCII character:
    what follows an ASCII separator does not matter to what precedes it. *)
Lemma utf8_space_sep (c : ascii) (a : string) (x : ascii) (r : string) :
  (nat_of_ascii x < 128)%nat →
  utf8_space (String c (a +:+ String x r)) = utf8_space (String c a).
Proof.
  intros Hx.
  assert ((nat_of_ascii x =? 160)%nat = false) as H160
    by (apply Nat.eqb_neq; lia).
  destruct a as [| c2 [| c3 a]];
    rewrite ?append_cons, ?append_nil_l; unfold utf8_space;
    destruct (is_js_space c); try reflexivity;
    destruct (nat_of_ascii c =? 194)%nat; rewrite ?H160; try reflexivity;
    destruct ((nat_of_ascii c =? 225) || (nat_of_ascii c =? 226)
              || (nat_of_ascii c =? 227) || (nat_of_ascii c =? 239))%nat;
    try reflexivity.
  - destruct r; [reflexivity |]. by rewrite utf8_space3_second_ascii.
  - by rewrite utf8_space3_third_ascii.
Qed.

Lemma regex_ok_at_sep (c : ascii) (a : string) (x : ascii) (r : string) :
  (nat_of_ascii x < 128)%nat →
  regex_ok_at (String c (a +:+ String x r)) = regex_ok_at (String c a).
Proof. intros Hx. unfold regex_ok_at. by rewrite utf8_space_sep. Qed.

Lemma all_ok_sep (a : string) (x : ascii) (r : string) :
  (nat_of_ascii x < 128)%nat →
  all_ok (a +:+ String x r) = all_ok a && all_ok (String x r).
Proof.
  intros Hx. induction a as [| c a IH]; [by rewrite append_nil_l |].
  rewrite append_cons. cbn [all_ok].
  by rewrite regex_ok_at_sep, IH, andb_assoc.
Qed.

Lemma eqb_empty (s : string) : String.eqb s "" = false ↔ s ≠ "".
Proof. by destruct s. Qed.

Lemma dot_before_last_spec (s : string) :
  dot_before_last s = true ↔ ∃ b c, s = b +:+ "." +:+ c ∧ c ≠ "".
Proof.
  split.
  - induction s as [| x rest IH]; [done |]. cbn [dot_before_last].
    intros [Hhere | Hlater]%orb_true_iff.
    + apply andb_true_iff in Hhere as [Hx Hrest].
      apply Ascii.eqb_eq in Hx as ->. apply negb_true_iff, eqb_empty in Hrest.
      by exists "", rest.
    + destruct (IH Hlater) as (b & c & -> & Hc). by exists (String x b), c.
  - intros (b & c & -> & Hc). induction b as [| x b IH].
    + rewrite append_nil_l. change ("." +:+ c) with (String "." c).
      cbn [dot_before_last]. apply eqb_empty in Hc. by rewrite Hc.
    + rewrite append_cons. cbn [dot_before_last]. rewrite IH. apply orb_true_r.
Qed.

Lemma domain_ok_spec (r : string) :
  domain_ok r = true
  ↔ ∃ b c, r = b +:+ "." +:+ c ∧ b ≠ "" ∧ c ≠ ""
           ∧ all_ok b = true ∧ all_ok c = true.
Proof.
  split.
  - destruct r as [| x rest]; [done |]. unfold domain_ok.
    intros [Hall Hdot]%andb_true_iff.
    apply dot_before_last_spec in Hdot as (b & c & -> & Hc).
    change ("." +:+ c) with (String "." c) in Hall.
    rewrite <- append_cons, all_ok_sep in Hall by (apply Nat.ltb_lt; reflexivity).
    apply andb_true_iff in Hall as [Hb Hdc]. cbn [all_ok] in Hdc.
    apply andb_true_iff in Hdc as [_ Hcok].
    by exists (String x b), c.
  - intros (b & c & -> & Hb & Hc & Hbok & Hcok).
    destruct b as [| x b]; [done |]. rewrite append_cons. unfold domain_ok.
    apply andb_true_iff. split.
    + change ("." +:+ c) with (String "." c).
      rewrite <- append_cons, all_ok_sep, Hbok by (apply Nat.ltb_lt; reflexivity).
      cbn [all_ok andb]. rewrite Hcok. reflexivity.
    + apply dot_before_last_spec. by exists b, c.
Qed.

Lemma regex_ok_at_not_at (x : ascii) (s : string) :
  regex_ok_at (String x s) = true → Ascii.eqb x "@" = false.
Proof. unfold regex_ok_at. intros [_ H]%andb_true_iff. by apply negb_true_iff. Qed.

Lemma local_then_domain_spec (seen : bool) (s : string) :
  local_then_domain seen s = true
  ↔ ∃ a r, s = a +:+ "@" +:+ r ∧ all_ok a = true
           ∧ (seen = true ∨ a ≠ "") ∧ domain_ok r = true.
Proof.
  split.
  - revert seen. induction s as [| x rest IH]; intros seen; [done |].
    cbn [local_then_domain]. destruct (Ascii.eqb x "@") eqn:Hx.
    + apply Ascii.eqb_eq in Hx as ->. intros [-> Hr]%andb_true_iff.
      exists "", rest. repeat split; auto.
    + intros [Hok Hrest]%andb_true_iff.
      destruct (IH _ Hrest) as (a & r & -> & Ha & _ & Hr).
      exists (String x a), r. repeat split; auto.
      change ("@" +:+ r) with (String "@" r) in Hok.
      rewrite regex_ok_at_sep in Hok by (apply Nat.ltb_lt; reflexivity).
      cbn [all_ok]. by rewrite Hok, Ha.
  - intros (a & r & -> & Ha & Hseen & Hr). revert seen Hseen.
    induction a as [| x a IH]; intros seen Hseen.
    + destruct Hseen as [-> | ?]; [| done].
      rewrite append_nil_l. change ("@" +:+ r) with (String "@" r).
      cbn [local_then_domain]. by rewrite Hr.
    + cbn [all_ok] in Ha. apply andb_true_iff in Ha as [Hx Ha].
      rewrite append_cons. cbn [local_then_domain].
      rewrite (regex_ok_at_not_at _ _ Hx).
      change ("@" +:+ r) with (String "@" r).
      rewrite regex_ok_at_sep, Hx by (apply Nat.ltb_lt; reflexivity). cbn [andb].
      change (String "@" r) with ("@" +:+ r). apply IH; auto.
Qed.

(** X15. The email test of POST and PUT accepts exactly the texts of the
    shape [local@domain.tld]: three non-empty parts without white space
    (that of the class [\s], ASCII or not) or at sign, joined by one at
    sign and a dot. *)
Theorem emailRegex_test_accepts_exactly (v : jsval) :
  emailRegex_test v = true ↔ email_shape (to_string v).
Proof.
  unfold emailRegex_test, email_shape. rewrite local_then_domain_spec. split.
  - intros (a & r & Hs & Ha & [? | Hne] & Hr); [done |].
    apply domain_ok_spec in Hr as (b & c & -> & ? & ? & ? & ?).
    by exists a, b, c.
  - intros (a & b & c & Hs & ? & ? & ? & ? & ? & ?).
    exists a, (b +:+ "." +:+ c). repeat split; auto.
    apply domain_ok_spec. by exists b, c.
Qed.

End EmailPattern.

(** A no-break space (U+00A0) is white space to the pattern; a letter
    outside ASCII is not. *)
Example emailRegex_test_no_break_space :
  emailRegex_test (JStr ("a" +:+ String "194" (String "160" "b@x.co"))) = false
  ∧ emailRegex_test (JStr "zoé@example.fr") = true.
Proof. split; reflexivity. Qed.

Lemma emailRegex_test_accepts_exactly_witness :
  emailRegex_test (JStr "a.b@mail.example.com") = true.
Proof.
  apply (proj2 (emailRegex_test_accepts_exactly (JStr "a.b@mail.example.com"))).
  exists "a.b", "mail", "example.com". repeat split; first [reflexivity | discriminate].
Defined.

(** ** The query functions *)

Section QueryFunctions.

Context (D : Database).

Definition query_functions : list (list jsval → Prog jsval) :=
  [createUser; getUsers; getUsersByEmail; getOrderByIdWithDetails;
   getOrdersByCustomerIdWithDetails; getOrdersWithDetails; getUserById;
   deleteUser; updateUser].

Definition read_functions : list (list jsval → Prog jsval) :=
  [getUsers; getUsersByEmail; getOrderByIdWithDetails;
   getOrdersByCustomerIdWithDetails; getOrdersWithDetails; getUserById].

Ltac unfold_query :=
  unfold createUser, getUsers, getUsersByEmail, getOrderByIdWithDetails,
    getOrdersByCustomerIdWithDetails, getOrdersWithDetails, getUserById,
    deleteUser, updateUser, first_row.

(** X16. Every query function issues at most one statement per call,
    and the six [get] functions never change the state. *)
Theorem query_functions_single_statement (f : list jsval → Prog jsval)
    (args : list jsval) (st : db_state D) :
  f ∈ query_functions →
  (List.length (run D (f args) st).1.2 ≤ 1)%nat
  ∧ (f ∈ read_functions → (run D (f args) st).2 = st).
Proof.
  intros Hin. unfold query_functions in Hin.
  repeat (apply elem_of_cons in Hin as [-> | Hin]);
    [.. | by apply elem_of_nil in Hin]; unfold_query; explore;
    cbn [run fst snd List.length];
    (split; [lia |]);
    first [ done
          | intros Hread; exfalso; unfold read_functions in Hread;
            repeat (apply elem_of_cons in Hread as [Heq | Hread]);
            [.. | by apply elem_of_nil in Hread];
            apply (f_equal (λ g, g [JUndef; JUndef])) in Heq;
            vm_compute in Heq; discriminate ].
Qed.

(** X17. What a missing row does: the lookups by id return [undefined],
    while [deleteUser] and [updateUser] raise; whatever they return is
    the first row of the answer and is truthy. *)
Theorem missing_row_behaviour (args : list jsval) (st : db_state D) :
  (∀ f sql,
     (f, sql) ∈ [(getUserById, sql_get_user_by_id);
                 (getOrderByIdWithDetails, sql_order_by_id)] →
     db_select D sql [arg args 0] st = QRows [] →
     run D (f args) st = (Some JUndef, [(sql, [arg args 0])], st))
  ∧ (∀ f v,
       f ∈ [deleteUser; updateUser] →
       (run D (f args) st).1.1 = Some v →
       truthy v = true
       ∧ ∃ s rest, (run D (f args) st).1.2 = [s]
                   ∧ (db_exec D s.1 s.2 st).1 = QRows (v :: rest)).
Proof.
  split.
  - intros f sql Hin Hnone.
    repeat (apply elem_of_cons in Hin as [[= -> ->] | Hin]);
      [.. | by apply elem_of_nil in Hin]; unfold_query;
      rewrite run_DbQuery, db_exec_select, Hnone by reflexivity; reflexivity.
  - intros f v Hin.
    repeat (apply elem_of_cons in Hin as [-> | Hin]);
      [.. | by apply elem_of_nil in Hin]; unfold_query; explore;
      cbn [run fst snd default lookup list_lookup negb] in *;
      try discriminate; intros [= <-];
      (split; [by apply negb_false_iff |]);
      eexists _, _; (split; [reflexivity |]); cbn [fst snd];
      match goal with H : db_exec _ _ _ _ = _ |- _ => by rewrite H end.
Qed.

End QueryFunctions.

Lemma query_functions_single_statement_witness :
  (List.length (run mem_db (getUserById [JNum 1]) [alice]).1.2 ≤ 1)%nat
  ∧ (getUserById ∈ read_functions →
     (run mem_db (getUserById [JNum 1]) [alice]).2 = [alice]).
Proof.
  apply (query_functions_single_statement mem_db getUserById [JNum 1] [alice]).
  do 6 right; left.
Defined.

(** An empty table: every SELECT answers with no row. *)
Definition empty_db : Database :=
  {| db_state := unit;
     db_select := λ _ _ _, QRows [];
     db_modify := λ _ _ st, (QRows [], st) |}.

Lemma missing_row_behaviour_witness :
  run empty_db (getUserById [JNum 9]) tt
  = (Some JUndef, [(sql_get_user_by_id, [JNum 9])], tt).
Proof.
  apply (proj1 (missing_row_behaviour empty_db [JNum 9] tt) getUserById
           sql_get_user_by_id).
  - left.
  - reflexivity.
Defined.

(** ** database/seed: seedUsers *)

Section Seeds.

(** [new Date(text)]: the value the runtime builds for a date text. *)
Variable new_Date : string → jsval.

Definition seed_user (email username password_hash created_at : string) : jsval :=
  JObj [("email", JStr email); ("username", JStr username);
        ("password_hash", JStr password_hash); ("created_at", new_Date created_at)].

Definition seed_users : list jsval :=
  [ seed_user "john.doe@example.com" "johndoe"
      "$2b$10$abcdefghijklmnopqrstuvwxyz123456" "2024-01-15";
    seed_user "jane.smith@example.com" "janesmith"
      "$2b$10$zyxwvutsrqponmlkjihgfedcba654321" "2024-02-01";
    seed_user "bob.wilson@example.com" "bobwilson"
      "$2b$10$1234567890abcdefghijklmnopqrstuv" "2024-03-10" ].

Definition sql_seed_insert : string :=
  "INSERT INTO users (email, username, password_hash, created_at) VALUES ($1, $2, $3, $4)".

Definition seed_statement (user : jsval) : Stmt :=
  (sql_seed_insert,
   [field "email" user; field "username" user; field "password_hash" user;
    field "created_at" user]).

(** [for (const user of users) { await db.query(...) }], then the log
    line; the function returns [undefined]. *)
Fixpoint seed_loop (users : list jsval) : Prog jsval :=
  match users with
  | [] => Ret JUndef
  | user :: rest =>
      DbQuery (seed_statement user).1 (seed_statement user).2
        (fun _ => seed_loop rest)
  end.

Definition seedUsers : Prog jsval := seed_loop seed_users.

Context (D : Database).

Lemma seed_loop_run (users : list jsval) (st : db_state D) :
  (run D (seed_loop users) st).1.2 `prefix_of` (seed_statement <$> users)
  ∧ (is_Some (run D (seed_loop users) st).1.1 →
     (run D (seed_loop users) st).1.2 = seed_statement <$> users).
Proof.
  revert st. induction users as [| user rest IH]; intros st.
  - cbn. split; [done |]. done.
  - cbn [seed_loop]. rewrite run_DbQuery.
    destruct (db_exec D _ _ st) as [[rows |] st'].
    + destruct (IH st') as [Hpre Hall].
      destruct (run D (seed_loop rest) st') as [[r tr] st'']. cbn in *.
      split; [by apply prefix_cons | intros Hr; by rewrite Hall].
    + cbn. split; [| by intros [? ?]].
      apply prefix_cons, prefix_nil.
Qed.

(** X18. Seeding inserts the sample users in order, one statement each,
    and stops at the first rejected INSERT: the statements issued are a
    prefix of the three inserts, all of them are issued when the function
    returns, and each binds its four values positionally, the password
    hashes included. *)
Theorem seedUsers_inserts_in_order (st : db_state D) :
  (run D seedUsers st).1.2 `prefix_of` (seed_statement <$> seed_users)
  ∧ (is_Some (run D seedUsers st).1.1 →
     (run D seedUsers st).1.2 = seed_statement <$> seed_users)
  ∧ Forall positionally_bound (run D seedUsers st).1.2.
Proof.
  destruct (seed_loop_run seed_users st) as [Hpre Hall].
  split; [done |]. split; [done |].
  destruct Hpre as [k Hk]. unfold seedUsers.
  assert (Forall positionally_bound (seed_statement <$> seed_users)) as Hbound.
  { repeat constructor. }
  rewrite Hk in Hbound. by apply Forall_app in Hbound as [? _].
Qed.

End Seeds.

(** ** db/connection: the pool settings *)

Section Connection.

(** [process.env]: a variable is a string or is not set. *)
Variable env : string → option string.

Definition env_var (name : string) : jsval :=
  match env name with
  | Some v => JStr v
  | None => JUndef
  end.

Record PoolConfig : Type := {
  user : jsval;
  host : jsval;
  database : jsval;
  password : jsval;
  port : jsval;
  max : Z;
  idleTimeoutMillis : Z;
  connectionTimeoutMillis : Z
}.

Definition pool_config : PoolConfig := {|
  user := js_or (env_var "DB_USER") (JStr "postgres");
  host := js_or (env_var "DB_HOST") (JStr "localhost");
  database := js_or (env_var "DB_NAME") (JStr "myapp");
  password := js_or (env_var "DB_PASSWORD") (JStr "password");
  port := js_or (env_var "DB_PORT") (JNum 5432);
  max := 20;
  idleTimeoutMillis := 30000;
  connectionTimeoutMillis := 2000
|}.

Definition pool_settings : list (string * (PoolConfig → jsval) * jsval) :=
  [ ("DB_USER", user, JStr "postgres");
    ("DB_HOST", host, JStr "localhost");
    ("DB_NAME", database, JStr "myapp");
    ("DB_PASSWORD", password, JStr "password");
    ("DB_PORT", port, JNum 5432) ].

(** X19. Each of the five connection settings is the environment
    variable's text when the variable is set and not empty, and the
    built-in default otherwise; so the pool is never given an empty or
    undefined setting, and an empty variable counts as unset. *)
Theorem pool_config_defaults (name : string) (get : PoolConfig → jsval)
    (dflt : jsval) :
  (name, get, dflt) ∈ pool_settings →
  truthy (get pool_config) = true
  ∧ get pool_config
    = match env name with
      | Some v => if String.eqb v "" then dflt else JStr v
      | None => dflt
      end.
Proof.
  intros Hin. unfold pool_settings in Hin.
  repeat (apply elem_of_cons in Hin as [[= -> -> ->] | Hin]);
    [.. | by apply elem_of_nil in Hin];
    cbn [pool_config user host database password port]; unfold js_or, env_var;
    (destruct (env _) as [v |]; [| done]); cbn [truthy];
    destruct (String.eqb v "") eqn:Hv; cbn [negb truthy]; by rewrite ?Hv.
Qed.

End Connection.

Definition demo_env (name : string) : option string :=
  if String.eqb name "DB_USER" then Some ""
  else if String.eqb name "DB_PORT" then Some "6543"
  else None.

Lemma pool_config_defaults_witness :
  port (pool_config demo_env) = JStr "6543"
  ∧ user (pool_config demo_env) = JStr "postgres".
Proof.
  split.
  - exact (proj2 (pool_config_defaults demo_env "DB_PORT" port (JNum 5432)
                    ltac:(do 4 right; left))).
  - exact (proj2 (pool_config_defaults demo_env "DB_USER" user (JStr "postgres")
                    ltac:(left))).
Defined.

(** ** PUT /users/:id updates the fields it is given *)

Section PartialUpdate.

Context (D : Database).

(** X20. A 200 answer of PUT /users/:id means the UPDATE set exactly the
    fields present in the body: an absent or empty [email] or [username]
    is left out of the statement and of its values, and the id is the
    last value. *)
Theorem put_user_updates_present_fields (req : Request) (st : db_state D) :
  let email := field "email" (req_body req) in
  let username := field "username" (req_body req) in
  status (run_handler D put_user req st).1.1 = 200 →
  (truthy email = true ∨ truthy username = true)
  ∧ ∃ n, parseInt (param_id req) = JNum n
         ∧ last (run_handler D put_user req st).1.2
           = Some (update_text (truthy email) (truthy username),
                   (if truthy email then [email] else [])
                     ++ (if truthy username then [username] else [])
                     ++ [JNum n])%list.
Proof.
  cbv zeta.
  destruct (parseInt_number (param_id req)) as [Hnan | [n Hn]].
  - unfold_handler. rewrite Hnan. cbn. discriminate.
  - unfold_handler. rewrite Hn. cbn [isNaN to_number]. explore;
      cbn [run fst snd default status h_catch] in *; try discriminate; intros _;
      repeat match goal with
        | H : get_prop _ _ = Some ?x |- _ => apply get_prop_field in H; subst x
        end;
      (split; [| by exists n]);
      destruct (truthy (field "email" (req_body req))),
               (truthy (field "username" (req_body req)));
      cbn [negb andb] in *; auto; discriminate.
Qed.

End PartialUpdate.

Lemma put_user_updates_present_fields_witness :
  last (run_handler mem_db put_user
          (request None (JStr "2") JUndef JUndef (JObj [("username", JStr "robert")]))
          [alice; bob]).1.2
  = Some (update_text false true, [JStr "robert"; JNum 2]).
Proof.
  destruct (put_user_updates_present_fields mem_db
              (request None (JStr "2") JUndef JUndef (JObj [("username", JStr "robert")]))
              [alice; bob] eq_refl) as (_ & n & Hn & Hlast).
  injection Hn as <-. exact Hlast.
Defined.
